(** * pareto: the service registry and the tick-driven state machine

    A shallow embedding of [service/registry.go] and [box/meta/machine.go]
    and the properties of the registry health engine and of the state
    machine engine proved over it. *)

From Stdlib Require Import ZArith Lia Bool.
From stdpp Require Import gmap strings list fin_maps.

Local Open Scope Z_scope.

(** ** Machine integers

    Go's [uint64] (and [uint] on 64-bit targets) is a [Z] reduced modulo
    [2^64] after every operation that can leave the range. *)

Definition u64_modulus : Z := 2 ^ 64.

Definition u64 (z : Z) : Z := z mod u64_modulus.

Definition u64_sub (a b : Z) : Z := u64 (a - b).

Definition u64_mul (a b : Z) : Z := u64 (a * b).

Definition u64_succ (a : Z) : Z := u64 (a + 1).

(** Go's [%] on unsigned operands (the divisor is checked by the caller). *)
Definition u64_rem (a b : Z) : Z := a mod b.

(** ** service/registry.go *)

Module service.

(** Modelled from the spec: the [State] enumeration is declared outside
    the sources.  The spec lists Starting, Online, Offline and Stopped and
    leaves the enumeration open; any further value is [OtherState n]. *)
Inductive State : Type :=
| Starting
| Online
| Offline
| Stopped
| OtherState (n : nat).

#[global] Instance State_eq_dec : EqDecision State.
Proof. solve_decision. Defined.

(** Modelled from the spec: the wire-level [Status] record is declared
    outside the sources; these are the fields [registry.go] reads and
    writes.  The numeric fields are integers of the report, converted with
    [uint64(...)] where the registry stores them. *)
Record Status : Type := mkStatus {
  Name : string;
  Domain : Z;
  State' : State;
  Ready : bool;
  Time : Z;
  CheckInterval : Z;
  AllowFailures : Z
}.

(** [type registry struct]: one tracked service. *)
Record registry : Type := mkRegistry {
  name : string;
  domain : Z;
  state : State;
  ready : bool;
  onlineTime : Z;
  offlineTime : Z;
  updateTime : Z;
  interval : Z;
  threshold : Z;
  purgeDelay : Z
}.

(** The process-wide defaults [StatusReportInterval], [StatusLostThreshold]
    and [ReviveWaitThreshold] are constants declared outside the sources. *)
Class Defaults : Type := mkDefaults {
  StatusReportInterval : Z;
  StatusLostThreshold : Z;
  ReviveWaitThreshold : Z
}.

(** Modelled from the spec: [box.SetIfEq(&target, compare, value)] is not
    among the sources; a field equal to [compare] (the zero value of an
    absent setting) takes the default [value], any other keeps its own. *)
Definition SetIfEq (target compare value : Z) : Z :=
  if decide (target = compare) then value else target.

(** The clock: an operation of the registry (one [handleStatus], one
    [checkTimeout]) is taken to run within one millisecond, so that every
    [box.TimeNowMs()] it calls reads the same [now]. *)

(** [func (r *registry) timeout() bool] *)
Definition registry_timeout (r : registry) (now : Z) : bool :=
  let duration := u64_sub now (updateTime r) in
  bool_decide (duration > u64_mul (interval r) (threshold r)).

(** [func (r *registry) dead() bool] *)
Definition registry_dead (r : registry) (now : Z) : bool :=
  let duration := u64_sub now (offlineTime r) in
  bool_decide (duration > u64_mul (interval r) (purgeDelay r)).

(** [func (r *registry) offline()] *)
Definition registry_offline (r : registry) (now : Z) : registry :=
  {| name := name r;
     domain := domain r;
     state := Offline;
     ready := false;
     onlineTime := onlineTime r;
     offlineTime := now;
     updateTime := now;
     interval := interval r;
     threshold := threshold r;
     purgeDelay := purgeDelay r |}.

(** [func (r *registry) update(s *Status)] *)
Definition registry_update (r : registry) (s : Status) (now : Z) : registry :=
  {| name := name r;
     domain := domain r;
     state := State' s;
     ready := ready r;
     onlineTime := onlineTime r;
     offlineTime := offlineTime r;
     updateTime := now;
     interval :=
       if decide (CheckInterval s ≠ 0) then u64 (CheckInterval s)
       else interval r;
     threshold :=
       if decide (AllowFailures s ≠ 0) then u64 (AllowFailures s)
       else threshold r;
     purgeDelay := purgeDelay r |}.

(** [func (r *registry) toStatus() *Status]; the fields the literal leaves
    out take their zero values. *)
Definition registry_toStatus (r : registry) : Status :=
  {| Name := name r;
     Domain := domain r;
     State' := state r;
     Ready := ready r;
     Time := updateTime r;
     CheckInterval := 0;
     AllowFailures := 0 |}.

(** What an operation of the manager does to the outside and to its map,
    in program order: a notice sent by [notifyWatched] (the log line names
    the entry as it is at the call, the payload is the status), a
    [services.Store] and a [services.Delete]. *)
Inductive event : Type :=
| Notified (old : registry) (new : Status)
| MapStore (key : string)
| MapDelete (key : string).

(** [type RegistryManager struct]: the registry repository; [emitted] is
    the history of events so far.  The timer and its duration only decide
    when [checkTimeout] runs and are left out. *)
Record RegistryManager : Type := mkManager {
  services : gmap string registry;
  emitted : list event
}.

(** The manager's methods run in a state monad over [RegistryManager]. *)
Definition M (A : Type) : Type := RegistryManager → A * RegistryManager.

Definition ret {A : Type} (a : A) : M A := λ m, (a, m).

Definition bind {A B : Type} (c : M A) (k : A → M B) : M B :=
  λ m, let '(a, m') := c m in k a m'.

Notation "'let*' x := c 'in' k" := (bind c (λ x, k))
  (at level 10, x name, c at level 200, k at level 200).
Notation "c >> k" := (bind c (λ _, k))
  (at level 100, k at level 200, right associativity).

Definition exec {A : Type} (c : M A) (m : RegistryManager) : RegistryManager :=
  snd (c m).

Definition emit (e : event) : M unit :=
  λ m, (tt, {| services := services m; emitted := emitted m ++ [e] |}).

(** [s.services.Load(name)] *)
Definition services_Load (key : string) : M (option registry) :=
  λ m, (services m !! key, m).

(** [s.services.Store(name, r)] *)
Definition services_Store (key : string) (r : registry) : M unit :=
  λ m, (tt, {| services := <[key := r]> (services m);
               emitted := emitted m ++ [MapStore key] |}).

(** [s.services.Delete(name)] *)
Definition services_Delete (key : string) : M unit :=
  λ m, (tt, {| services := delete key (services m);
               emitted := emitted m ++ [MapDelete key] |}).

(** A write through the [*registry] pointer the map holds under [key]:
    the object changes where it is, the map itself is not touched. *)
Definition poke (key : string) (r : registry) : M unit :=
  λ m, (tt, {| services := alter (λ _, r) key (services m);
               emitted := emitted m |}).

(** [s.services.Range(f)]: [f] is called once for every entry, in the
    order [map_to_list] lists them. *)
Fixpoint range_over (f : string → registry → M unit)
    (l : list (string * registry)) : M unit :=
  match l with
  | [] => ret tt
  | (key, value) :: l' => f key value >> range_over f l'
  end.

Definition services_Range (f : string → registry → M unit) : M unit :=
  λ m, range_over f (map_to_list (services m)) m.

Section Manager.
Context `{Defaults}.

(** [func (s *RegistryManager) get(name string) *registry] *)
Definition RegistryManager_get (name : string) : M (option registry) :=
  services_Load name.

(** [func (s *RegistryManager) registry(status *Status) *registry] *)
Definition RegistryManager_registry (status : Status) (now : Z) : registry :=
  let t := now in
  {| name := Name status;
     domain := Domain status;
     state := State' status;
     ready := Ready status;
     onlineTime := t;
     offlineTime := 0;
     updateTime := t;
     interval :=
       SetIfEq (u64_mul (u64 (CheckInterval status)) 1000) 0
               (StatusReportInterval * 1000);
     threshold := SetIfEq (u64 (AllowFailures status)) 0 StatusLostThreshold;
     purgeDelay := SetIfEq 0 0 ReviveWaitThreshold |}.

(** [func (s *RegistryManager) register(status *Status)] *)
Definition RegistryManager_register (status : Status) (now : Z) : M unit :=
  services_Store (Name status) (RegistryManager_registry status now).

(** [func (s *RegistryManager) unregister(name string)] *)
Definition RegistryManager_unregister (name : string) : M unit :=
  services_Delete name.

(** [func (s *RegistryManager) notifyWatched(reg *registry, status *Status)] *)
Definition notifyWatched (reg : registry) (status : Status) : M unit :=
  emit (Notified reg status).

(** [func (s *RegistryManager) update(reg *registry, status *Status)];
    [key] is the map key under which [reg] was loaded. *)
Definition RegistryManager_update (key : string) (reg : registry)
    (status : Status) (now : Z) : M unit :=
  (if bool_decide (state reg ≠ State' status)
      || bool_decide (ready reg ≠ Ready status)
   then notifyWatched reg status
   else ret tt) >>
  let reg' := registry_update reg status now in
  poke key reg' >>
  if decide (state reg' = Stopped)
  then RegistryManager_unregister (name reg')
  else ret tt.

(** The outcome of [json.Unmarshal(data, status)] on a heartbeat. *)
Inductive payload : Type :=
| Malformed
| Decoded (status : Status).

(** [func (s *RegistryManager) handleStatus(data []byte)] *)
Definition handleStatus (data : payload) (now : Z) : M unit :=
  match data with
  | Malformed => ret tt
  | Decoded status =>
      let* ss := services_Load (Name status) in
      match ss with
      | Some reg => RegistryManager_update (Name status) reg status now
      | None => RegistryManager_register status now
      end
  end.

(** Modelled from the spec: the JSON-RPC request, response and error types
    belong to the [jsonrpc2] package, which is not among the sources.  A
    request either fails [GetObject] or yields the request object. *)
Record QueryStatusReq : Type := mkQueryStatusReq { ReqName : string }.

Inductive RPCRequest : Type :=
| BadParams
| Params (reqObj : QueryStatusReq).

Inductive ErrorCode : Type :=
| ErrServerInvalidParameters
| ErrServerInvalid.

Record QueryStatusRsp : Type := mkQueryStatusRsp { RspStatus : Status }.

Inductive RPCResponse : Type :=
| NewErrorResponseWithCodeOnly (code : ErrorCode)
| NewErrorResponse (code : ErrorCode) (message : string)
| NewResponse (req : RPCRequest) (rsp : QueryStatusRsp).

(** [func (s *RegistryManager) handleQueryStatus(req) *jsonrpc2.RPCResponse] *)
Definition handleQueryStatus (req : RPCRequest) : M RPCResponse :=
  match req with
  | BadParams => ret (NewErrorResponseWithCodeOnly ErrServerInvalidParameters)
  | Params reqObj =>
      let* reg := RegistryManager_get (ReqName reqObj) in
      match reg with
      | None =>
          ret (NewErrorResponse ErrServerInvalid "service name does not exist")
      | Some reg =>
          ret (NewResponse req
                 {| RspStatus :=
                      {| Name := name reg;
                         Domain := domain reg;
                         State' := state reg;
                         Ready := ready reg;
                         Time := updateTime reg;
                         CheckInterval := 0;
                         AllowFailures := 0 |} |})
      end
  end.

(** The function [checkTimeout] hands to [Range]. *)
Definition checkTimeout_visit (now : Z) (key : string) (service : registry)
    : M unit :=
  if decide (state service = Offline) then
    if registry_dead service now then services_Delete key else ret tt
  else
    if registry_timeout service now then
      let old := service in
      let service' := registry_offline service now in
      poke key service' >>
      notifyWatched old (registry_toStatus service')
    else ret tt.

(** [func (s *RegistryManager) checkTimeout()] *)
Definition checkTimeout (now : Z) : M unit :=
  services_Range (checkTimeout_visit now).

End Manager.

(** Every entry sits under its own name: the only [Store] is the one of
    [register], under [status.Name], with [name: status.Name]. *)
Definition store_wf (σ : gmap string registry) : Prop :=
  ∀ key r, σ !! key = Some r → name r = key.

(** The notices of a history that concern the service [key]. *)
Definition notice_of (key : string) (e : event) : bool :=
  match e with
  | Notified _ new => bool_decide (Name new = key)
  | _ => false
  end.

Definition notices_of (key : string) (l : list event) : list event :=
  List.filter (notice_of key) l.

(** The test of [RegistryManager.update] for a change worth a notice. *)
Definition changed (reg : registry) (status : Status) : bool :=
  bool_decide (state reg ≠ State' status)
  || bool_decide (ready reg ≠ Ready status).

(** What a visit of [checkTimeout] leaves of an entry, and what it adds to
    the history. *)
Definition swept (now : Z) (r : registry) : option registry :=
  if decide (state r = Offline) then
    if registry_dead r now then None else Some r
  else
    if registry_timeout r now then Some (registry_offline r now) else Some r.

Definition swept_events (now : Z) (key : string) (r : registry) : list event :=
  if decide (state r = Offline) then
    if registry_dead r now then [MapDelete key] else []
  else
    if registry_timeout r now
    then [Notified r (registry_toStatus (registry_offline r now))]
    else [].

(** Go's [int] on 64-bit targets: the counter of [Count]. *)
Definition int_wrap (z : Z) : Z := (z + 2 ^ 63) mod 2 ^ 64 - 2 ^ 63.

(** [s.services.Range(f)] for a callback that only updates a variable it
    captured ([counter], [list]) and leaves the map alone. *)
Fixpoint range_fold {A : Type} (f : string → registry → A → A)
    (l : list (string * registry)) (a : A) : A :=
  match l with
  | [] => a
  | (key, value) :: l' => range_fold f l' (f key value a)
  end.

Definition services_Range_fold {A : Type} (f : string → registry → A → A)
    (a : A) : M A :=
  λ m, (range_fold f (map_to_list (services m)) a, m).

(** [func (s *RegistryManager) Registered(name string) bool] *)
Definition Registered (name : string) : M bool :=
  let* found := services_Load name in
  match found with
  | Some _ => ret true
  | None => ret false
  end.

(** [func (s *RegistryManager) Count() int] *)
Definition Count : M Z :=
  services_Range_fold (λ _ _ counter, int_wrap (counter + 1)) 0.

(** [func (s *RegistryManager) all() []*registry] *)
Definition all : M (list registry) :=
  services_Range_fold (λ _ value lst, lst ++ [value]) [].

(** Modelled from the spec: the request and response objects of the list
    query belong to packages that are not among the sources.  [Observed]
    is the whitelist, empty when the request gives none (a nil and an
    empty slice are told apart nowhere). *)
Record QueryStatusListReq : Type := mkQueryStatusListReq {
  Observed : list string
}.

Inductive RPCListRequest : Type :=
| BadListParams
| ListParams (reqObj : QueryStatusListReq).

Record StatusList : Type := mkStatusList { Services : list Status }.

Record QueryStatusListRsp : Type := mkQueryStatusListRsp {
  RspList : StatusList
}.

Inductive RPCListResponse : Type :=
| NewListErrorResponseWithCodeOnly (code : ErrorCode)
| NewListResponse (req : RPCListRequest) (rsp : QueryStatusListRsp).

(** The inner loop of the whitelist branch: [for _, reg := range all]. *)
Definition append_named (all : list registry) (wanted : string)
    (lst : list Status) : list Status :=
  fold_left
    (λ lst reg,
       if decide (name reg = wanted)
       then lst ++ [{| Name := name reg; Domain := domain reg;
                       State' := state reg; Ready := ready reg;
                       Time := updateTime reg;
                       CheckInterval := 0; AllowFailures := 0 |}]
       else lst)
    all lst.

(** [func (s *RegistryManager) handleQueryStatusList(req)] *)
Definition handleQueryStatusList (req : RPCListRequest) : M RPCListResponse :=
  match req with
  | BadListParams =>
      ret (NewListErrorResponseWithCodeOnly ErrServerInvalidParameters)
  | ListParams reqObj =>
      let* all := all in
      let whitelist := Observed reqObj in
      let lst :=
        if bool_decide (length whitelist ≠ 0%nat) then
          fold_left (λ lst wanted, append_named all wanted lst) whitelist []
        else
          fold_left
            (λ lst reg,
               lst ++ [{| Name := name reg; Domain := domain reg;
                          State' := state reg; Ready := ready reg;
                          Time := updateTime reg;
                          CheckInterval := 0; AllowFailures := 0 |}])
            all []
      in
      ret (NewListResponse req {| RspList := {| Services := lst |} |})
  end.

(** The life of a manager: heartbeats and sweeps, one after the other. *)
Inductive operation : Type :=
| Heartbeat (data : payload) (now : Z)
| Sweep (now : Z).

Definition perform `{Defaults} (o : operation) : M unit :=
  match o with
  | Heartbeat data now => handleStatus data now
  | Sweep now => checkTimeout now
  end.

Definition run `{Defaults} (ops : list operation) (m : RegistryManager)
    : RegistryManager :=
  fold_left (λ m o, exec (perform o) m) ops m.

End service.

(** ** box/meta/machine.go *)

Module meta.

(** A Go run-time panic, by cause. *)
Inductive panic : Type :=
| NilInterfaceConversion
| NilPointerDereference
| CloseOfClosedChannel.

(** A call either returns or panics; nothing in the package recovers. *)
Inductive outcome (A : Type) : Type :=
| Ok (a : A)
| Panic (why : panic).

Arguments Ok {A} a.
Arguments Panic {A} why.

Section Machine.

(** [Act] stands for the functions bound as [Action], [Arg] for the values
    held in [Args interface{}].  An action is taken to return and to leave
    the machine alone; what is recorded of it is that it was called. *)
Context {Act Arg : Type}.

(** [type State struct].  The [machine] field is the owner set by
    [RegisterState]: the states of a machine's map point back to it. *)
Record State : Type := mkState {
  Name : string;
  Ticks : Z;
  Action : option Act;
  Args : Arg;
  tickCnt : Z
}.

(** [type StateMachine struct].  [current] is the [atomic.Value]: [None]
    until the first [Store].  [quit] and [stopped] tell whether the channel
    is closed.  [invoked] is the history of action calls; the ticker only
    decides when [trigger] runs and is left out. *)
Record StateMachine : Type := mkStateMachine {
  name : string;
  states : gmap string State;
  starting : string;
  stopping : string;
  saved : string;
  current : option string;
  precision : Z;
  quit : bool;
  stopped : bool;
  trace : bool;
  invoked : list (Act * Arg)
}.

(** The methods run in a state monad with panics over [StateMachine]. *)
Definition M (A : Type) : Type := StateMachine → outcome (A * StateMachine).

Definition ret {A : Type} (a : A) : M A := λ sm, Ok (a, sm).

Definition bind {A B : Type} (c : M A) (k : A → M B) : M B :=
  λ sm, match c sm with
        | Ok (a, sm') => k a sm'
        | Panic why => Panic why
        end.

Definition raise {A : Type} (why : panic) : M A := λ _, Panic why.

Definition get : M StateMachine := λ sm, Ok (sm, sm).

Definition put (sm : StateMachine) : M unit := λ _, Ok (tt, sm).

Notation "'let*' x := c 'in' k" := (bind c (λ x, k))
  (at level 10, x name, c at level 200, k at level 200).
Notation "c >> k" := (bind c (λ _, k))
  (at level 100, k at level 200, right associativity).

Definition with_states (f : gmap string State → gmap string State)
    (sm : StateMachine) : StateMachine :=
  {| name := name sm; states := f (states sm); starting := starting sm;
     stopping := stopping sm; saved := saved sm; current := current sm;
     precision := precision sm; quit := quit sm; stopped := stopped sm;
     trace := trace sm; invoked := invoked sm |}.

Definition with_current (c : option string) (sm : StateMachine)
    : StateMachine :=
  {| name := name sm; states := states sm; starting := starting sm;
     stopping := stopping sm; saved := saved sm; current := c;
     precision := precision sm; quit := quit sm; stopped := stopped sm;
     trace := trace sm; invoked := invoked sm |}.

Definition with_stopped (b : bool) (sm : StateMachine) : StateMachine :=
  {| name := name sm; states := states sm; starting := starting sm;
     stopping := stopping sm; saved := saved sm; current := current sm;
     precision := precision sm; quit := quit sm; stopped := b;
     trace := trace sm; invoked := invoked sm |}.

Definition with_invoked (l : list (Act * Arg)) (sm : StateMachine)
    : StateMachine :=
  {| name := name sm; states := states sm; starting := starting sm;
     stopping := stopping sm; saved := saved sm; current := current sm;
     precision := precision sm; quit := quit sm; stopped := stopped sm;
     trace := trace sm; invoked := l |}.

Definition with_tickCnt (n : Z) (s : State) : State :=
  {| Name := Name s; Ticks := Ticks s; Action := Action s; Args := Args s;
     tickCnt := n |}.

(** [s.Action(s.Args)] *)
Definition call (a : Act) (args : Arg) : M unit :=
  λ sm, Ok (tt, with_invoked (invoked sm ++ [(a, args)]) sm).

(** [close(s.machine.stopped)]: closing a closed channel panics. *)
Definition close_stopped : M unit :=
  λ sm, if stopped sm then Panic CloseOfClosedChannel
        else Ok (tt, with_stopped true sm).

(** [func NewStateMachine(name string, precision time.Duration)]: the
    fields the literal leaves out take their zero values, and nothing is
    stored in [current]. *)
Definition NewStateMachine (name : string) (precision : Z) : StateMachine :=
  {| name := name;
     states := ∅;
     starting := "";
     stopping := "";
     saved := "";
     current := None;
     precision := precision;
     quit := false;
     stopped := false;
     trace := false;
     invoked := [] |}.

(** [func (s *State) trigger()]; [key] is where the map holds [s], the
    counter is written through the pointer.  The trace line before the
    call has no effect on the machine. *)
Definition State_trigger (key : string) (s : State) : M unit :=
  let cnt := u64_succ (tickCnt s) in
  (λ sm, Ok (tt, with_states (alter (with_tickCnt cnt) key) sm)) >>
  if bool_decide (0 = Ticks s) || bool_decide (u64_rem cnt (Ticks s) = 0)
  then
    match Action s with
    | Some action =>
        call action (Args s) >>
        let* sm := get in
        if bool_decide (stopping sm ≠ "") && bool_decide (Name s = stopping sm)
        then close_stopped
        else ret tt
    | None => ret tt
    end
  else ret tt.

(** [func (sm *StateMachine) GetState() string]: [Load] yields nil before
    any [Store], and the assertion [.(string)] on nil panics. *)
Definition GetState : M string :=
  λ sm, match current sm with
        | Some s => Ok (s, sm)
        | None => Panic NilInterfaceConversion
        end.

(** [func (sm *StateMachine) MoveToState(s string) bool] *)
Definition MoveToState (s : string) : M bool :=
  let* cur := GetState in
  if bool_decide (cur = s) then
    GetState >> ret true
  else
    let* sm := get in
    match states sm !! s with
    | None => ret false
    | Some _ =>
        (if trace sm then GetState >> ret tt else ret tt) >>
        put (with_current (Some s) sm) >>
        ret true
    end.

(** [func (sm *StateMachine) RegisterState(s *State) bool]; [None] is the
    nil pointer. *)
Definition RegisterState (s : option State) : M bool :=
  match s with
  | None => ret false
  | Some s =>
      if bool_decide (String.length (Name s) = 0%nat) then ret false
      else
        let* sm := get in
        put (with_states (insert (Name s) (with_tickCnt 0 s)) sm) >>
        ret true
  end.

(** [func (sm *StateMachine) SetStartingState(state string) bool] *)
Definition SetStartingState (state : string) : M bool :=
  let* sm := get in
  match states sm !! state with
  | None => ret false
  | Some _ =>
      put {| name := name sm; states := states sm; starting := state;
             stopping := stopping sm; saved := saved sm;
             current := current sm; precision := precision sm;
             quit := quit sm; stopped := stopped sm; trace := trace sm;
             invoked := invoked sm |} >>
      ret true
  end.

(** [func (sm *StateMachine) SetStoppingState(state string) bool] *)
Definition SetStoppingState (state : string) : M bool :=
  let* sm := get in
  match states sm !! state with
  | None => ret false
  | Some _ =>
      put {| name := name sm; states := states sm; starting := starting sm;
             stopping := state; saved := saved sm;
             current := current sm; precision := precision sm;
             quit := quit sm; stopped := stopped sm; trace := trace sm;
             invoked := invoked sm |} >>
      ret true
  end.

(** [func (sm *StateMachine) Startup() bool], up to the start of the loop
    goroutine. *)
Definition Startup : M bool :=
  let* sm := get in
  if bool_decide (size (states sm) = 0%nat) then ret false
  else if bool_decide (starting sm = "") then ret false
  else
    let* cur := GetState in
    (if bool_decide (cur = "") then MoveToState (starting sm) >> ret tt
     else ret tt) >>
    ret true.

(** [func (sm *StateMachine) trigger()]: indexing the map with a missing
    key yields a nil [*State], whose [trigger] dereferences it. *)
Definition StateMachine_trigger : M unit :=
  let* cur := GetState in
  let* sm := get in
  match states sm !! cur with
  | Some state => State_trigger cur state
  | None => raise NilPointerDereference
  end.

(** The ticks of [loop]: [n] deliveries of the ticker. *)
Fixpoint ticks (n : nat) : M unit :=
  match n with
  | O => ret tt
  | S n' => StateMachine_trigger >> ticks n'
  end.

(** [func (sm *StateMachine) EnableStateTrace(on bool)] *)
Definition EnableStateTrace (on : bool) : M unit :=
  let* sm := get in
  put {| name := name sm; states := states sm; starting := starting sm;
         stopping := stopping sm; saved := saved sm;
         current := current sm; precision := precision sm;
         quit := quit sm; stopped := stopped sm; trace := on;
         invoked := invoked sm |}.

(** [func (sm *StateMachine) RegisterStates(ss []*State) bool] *)
Fixpoint RegisterStates (ss : list (option State)) : M bool :=
  match ss with
  | [] => ret true
  | s :: ss' =>
      let* ok := RegisterState s in
      if ok then RegisterStates ss' else ret false
  end.

Definition with_saved (s : string) (sm : StateMachine) : StateMachine :=
  {| name := name sm; states := states sm; starting := starting sm;
     stopping := stopping sm; saved := s; current := current sm;
     precision := precision sm; quit := quit sm; stopped := stopped sm;
     trace := trace sm; invoked := invoked sm |}.

(** [func (sm *StateMachine) SaveState()] *)
Definition SaveState : M unit :=
  let* cur := GetState in
  let* sm := get in
  put (with_saved cur sm).

(** [func (sm *StateMachine) RestoreState()] *)
Definition RestoreState : M unit :=
  let* sm := get in
  MoveToState (saved sm) >> ret tt.

(** The calls a user and the ticker make on a machine. *)
Inductive invocation : Type :=
| CallRegisterState (s : option State)
| CallSetStartingState (state : string)
| CallSetStoppingState (state : string)
| CallEnableStateTrace (on : bool)
| CallStartup
| CallMoveToState (s : string)
| CallSaveState
| CallRestoreState
| Tick.

Definition invoke (c : invocation) : M unit :=
  match c with
  | CallRegisterState s => RegisterState s >> ret tt
  | CallSetStartingState state => SetStartingState state >> ret tt
  | CallSetStoppingState state => SetStoppingState state >> ret tt
  | CallEnableStateTrace on => EnableStateTrace on
  | CallStartup => Startup >> ret tt
  | CallMoveToState s => MoveToState s >> ret tt
  | CallSaveState => SaveState
  | CallRestoreState => RestoreState
  | Tick => StateMachine_trigger
  end.

Fixpoint invoke_all (cs : list invocation) : M unit :=
  match cs with
  | [] => ret tt
  | c :: cs' => invoke c >> invoke_all cs'
  end.

(** The current state, once stored, names a registered state. *)
Definition current_registered (sm : StateMachine) : Prop :=
  ∀ cur, current sm = Some cur → is_Some (states sm !! cur).

(** The starting state, once set, names a registered state. *)
Definition starting_registered (sm : StateMachine) : Prop :=
  starting sm ≠ "" → is_Some (states sm !! starting sm).

(** A pointer [RegisterState] accepts: not nil, with a name. *)
Definition acceptable (s : option State) : Prop :=
  ∃ st, s = Some st ∧ Name st ≠ "".

(** The map after the states [ss] were registered in turn. *)
Definition registered_into (σ : gmap string State) (ss : list (option State))
    : gmap string State :=
  fold_left
    (λ σ s, match s with
            | Some st => <[Name st := with_tickCnt 0 st]> σ
            | None => σ
            end)
    ss σ.

(** How often an action due every [n]th tick is called while the counter
    goes from [c] to [c + k]; on every tick where [n] is 0. *)
Definition calls_between (n c k : Z) : Z :=
  if decide (n = 0) then k else (c + k) / n - c / n.


Definition designated_stopping (sm : StateMachine) (s : State) : Prop :=
  stopping sm ≠ "" ∧ Name s = stopping sm.

End Machine.

Arguments State : clear implicits.
Arguments StateMachine : clear implicits.

End meta.

(** ** The spin lock (package concurrent) *)

Module concurrent.

(** [type Locker struct]: the word [lock], 0 unlocked and 1 locked. *)
Record Locker : Type := mkLocker { lock : Z }.

(** [atomic.CompareAndSwapUintptr(&l.lock, old, new)] *)
Definition CompareAndSwapUintptr (l : Locker) (old new : Z) : bool * Locker :=
  if decide (lock l = old) then (true, {| lock := new |}) else (false, l).

(** [atomic.StoreUintptr(&l.lock, val)] *)
Definition StoreUintptr (l : Locker) (val : Z) : Locker := {| lock := val |}.

(** [func (l *Locker) Lock()] run with nobody else touching the word:
    [fuel] bounds the turns of the [goto loop]; [None] is a call still
    spinning when the fuel is spent. *)
Fixpoint Lock (fuel : nat) (l : Locker) : option Locker :=
  match fuel with
  | O => None
  | S fuel' =>
      let '(swapped, l') := CompareAndSwapUintptr l 0 1 in
      if negb swapped then Lock fuel' l' else Some l'
  end.

(** [func (l *Locker) Unlock()] *)
Definition Unlock (l : Locker) : Locker := StoreUintptr l 0.

(** Goroutines sharing one locker, each running [Lock()], its critical
    section, [Unlock()], over and over.  A goroutine is outside, at
    [loop:] inside [Lock], or between [Lock] and [Unlock]. *)
Inductive place : Type :=
| Outside
| AtLoop
| Holding.

#[global] Instance place_eq_dec : EqDecision place.
Proof. solve_decision. Defined.

Record system : Type := mkSystem {
  locker : Locker;
  goroutines : gmap nat place
}.

(** One atomic step of goroutine [i]: the call of [Lock], one turn of its
    loop (the swap, and [Gosched] when it failed), or [Unlock]. *)
Definition step (i : nat) (st : system) : system :=
  match goroutines st !! i with
  | None => st
  | Some Outside =>
      {| locker := locker st; goroutines := <[i := AtLoop]> (goroutines st) |}
  | Some AtLoop =>
      let '(swapped, l') := CompareAndSwapUintptr (locker st) 0 1 in
      if negb swapped then {| locker := l'; goroutines := goroutines st |}
      else {| locker := l'; goroutines := <[i := Holding]> (goroutines st) |}
  | Some Holding =>
      {| locker := Unlock (locker st);
         goroutines := <[i := Outside]> (goroutines st) |}
  end.

(** The system after the scheduler ran the goroutines in the order
    [schedule]. *)
Definition interleave (schedule : list nat) (st : system) : system :=
  fold_left (λ st i, step i st) schedule st.

(** [n] goroutines outside, the locker in its zero value. *)
Definition start (n : nat) : system :=
  {| locker := {| lock := 0 |};
     goroutines := list_to_map ((λ i, (i, Outside)) <$> seq 0 n) |}.

(** The word tells the truth: 0 and nobody between [Lock] and [Unlock],
    or 1 and exactly one goroutine there. *)
Definition truthful (st : system) : Prop :=
  (lock (locker st) = 0 ∧ ∀ i, goroutines st !! i ≠ Some Holding) ∨
  (lock (locker st) = 1 ∧
   ∃ i, goroutines st !! i = Some Holding ∧
        ∀ j, goroutines st !! j = Some Holding → j = i).

End concurrent.

(** ** A registry scenario

    The service "alpha" with a heartbeat every second, three failures
    allowed and a revival window of two intervals. *)

Module scenario.
Import service.

#[local] Instance defaults : Defaults :=
  {| StatusReportInterval := 5;
     StatusLostThreshold := 3;
     ReviveWaitThreshold := 2 |}.

Definition report (st : State) (rdy : bool) : Status :=
  {| Name := "alpha"; Domain := 1; State' := st; Ready := rdy; Time := 0;
     CheckInterval := 1; AllowFailures := 3 |}.

Definition fresh : RegistryManager := {| services := ∅; emitted := [] |}.

(** A heartbeat of "alpha" handled at time [now]. *)
Definition heartbeat (st : State) (rdy : bool) (now : Z)
    : RegistryManager → RegistryManager :=
  exec (handleStatus (Decoded (report st rdy)) now).

(** "alpha" reports at time 0 and is registered. *)
Definition registered (st : State) (rdy : bool) : RegistryManager :=
  heartbeat st rdy 0 fresh.

(** The entry the registration leaves. *)
Definition alpha (st : State) (rdy : bool) : registry :=
  RegistryManager_registry (report st rdy) 0.

(** "alpha" after the sweep at 3100 ms forced it offline. *)
Definition lost : RegistryManager :=
  exec (checkTimeout 3100) (registered Online true).

(** A second service, "beta", registered at 5 ms beside "alpha". *)
Definition beta_report : Status :=
  {| Name := "beta"; Domain := 2; State' := Online; Ready := true; Time := 0;
     CheckInterval := 2; AllowFailures := 4 |}.

Definition beta : registry := RegistryManager_registry beta_report 5.

Definition both : RegistryManager :=
  exec (handleStatus (Decoded beta_report) 5) (registered Online true).

End scenario.

(** ** A state machine scenario

    The machine of two states: "A" fires on every tick, "B" is the
    stopping state.  Actions are known by a label, their argument is
    empty. *)

Module machine_scenario.
Import meta.

Definition A : State string unit :=
  {| Name := "A"; Ticks := 0; Action := Some "count"; Args := tt;
     tickCnt := 0 |}.

Definition B : State string unit :=
  {| Name := "B"; Ticks := 0; Action := Some "flag"; Args := tt;
     tickCnt := 0 |}.

(** [NewStateMachine], [RegisterStates], [SetStartingState] and
    [SetStoppingState], as a caller sets a machine up. *)
Definition setup : M bool :=
  bind (RegisterState (Some A)) (λ _,
  bind (RegisterState (Some B)) (λ _,
  bind (SetStartingState "A") (λ _,
  SetStoppingState "B"))).

Definition machine_of {X : Type}
    (o : outcome (X * StateMachine string unit)) : StateMachine string unit :=
  match o with
  | Ok (_, sm) => sm
  | Panic _ => NewStateMachine "demo" 100
  end.

Definition configured : StateMachine string unit :=
  machine_of (setup (NewStateMachine "demo" 100)).

(** The configured machine with "B" stored as its current state. *)
Definition stopping_now : StateMachine string unit :=
  with_current (Some "B") configured.

(** A state that fires on every third tick, two ticks in. *)
Definition every_third : State string unit :=
  {| Name := "C"; Ticks := 3; Action := Some "poll"; Args := tt;
     tickCnt := 2 |}.

Definition polling : StateMachine string unit :=
  with_current (Some "C")
    (with_states (insert "C" every_third) configured).


(** A state with no action bound, due on every tick, and a machine in it. *)
Definition idle : State string unit :=
  {| Name := "I"; Ticks := 0; Action := None; Args := tt; tickCnt := 0 |}.



End machine_scenario.

(** ** Properties of the registry *)

Module service_facts.
Import service.

Section Arithmetic.

Lemma u64_small (z : Z) : 0 ≤ z < u64_modulus → u64 z = z.
Proof. intros Hz. unfold u64. by apply Z.mod_small. Qed.

Lemma u64_range (z : Z) : 0 ≤ u64 z < u64_modulus.
Proof. unfold u64, u64_modulus. apply Z.mod_pos_bound. lia. Qed.

(** Where the clock has not gone back and the product fits, the test of
    [timeout] is the comparison over the integers. *)
Lemma registry_timeout_exact (r : registry) (now : Z) :
  0 ≤ updateTime r ≤ now → now < u64_modulus →
  0 ≤ interval r * threshold r < u64_modulus →
  registry_timeout r now = true ↔
  now - updateTime r > interval r * threshold r.
Proof.
  intros Ht Hn Hp. unfold registry_timeout, u64_sub, u64_mul.
  rewrite !u64_small by lia. apply bool_decide_eq_true.
Qed.

Lemma registry_dead_exact (r : registry) (now : Z) :
  0 ≤ offlineTime r ≤ now → now < u64_modulus →
  0 ≤ interval r * purgeDelay r < u64_modulus →
  registry_dead r now = true ↔
  now - offlineTime r > interval r * purgeDelay r.
Proof.
  intros Ht Hn Hp. unfold registry_dead, u64_sub, u64_mul.
  rewrite !u64_small by lia. apply bool_decide_eq_true.
Qed.

End Arithmetic.

Section Reports.
Context `{Defaults}.

Lemma changed_true (reg : registry) (status : Status) :
  changed reg status = true ↔
  state reg ≠ State' status ∨ ready reg ≠ Ready status.
Proof.
  unfold changed. rewrite orb_true_iff, !bool_decide_eq_true. tauto.
Qed.

Lemma changed_false (reg : registry) (status : Status) :
  changed reg status = false ↔
  state reg = State' status ∧ ready reg = Ready status.
Proof.
  unfold changed. rewrite orb_false_iff, !bool_decide_eq_false.
  split; intros [Hs Hr]; split; try congruence.
  - by destruct (decide (state reg = State' status)).
  - by destruct (decide (ready reg = Ready status)).
Qed.

(** A malformed heartbeat is dropped. *)
Lemma handleStatus_malformed (now : Z) (m : RegistryManager) :
  handleStatus Malformed now m = (tt, m).
Proof. reflexivity. Qed.

(** The report of an unseen name takes the registration path. *)
Lemma handleStatus_unseen (status : Status) (now : Z) (m : RegistryManager) :
  services m !! Name status = None →
  exec (handleStatus (Decoded status) now) m =
  {| services :=
       <[Name status := RegistryManager_registry status now]> (services m);
     emitted := emitted m ++ [MapStore (Name status)] |}.
Proof.
  intros Hm. unfold exec, handleStatus, bind, services_Load. rewrite Hm. reflexivity.
Qed.

(** The report of a tracked name takes the update path: the notice if
    something changed, the write through the pointer, the removal if the
    entry is now Stopped. *)
Lemma handleStatus_tracked (status : Status) (now : Z) (m : RegistryManager)
    (reg : registry) :
  services m !! Name status = Some reg →
  exec (handleStatus (Decoded status) now) m =
  let σ := <[Name status := registry_update reg status now]> (services m) in
  {| services :=
       if decide (State' status = Stopped) then delete (name reg) σ else σ;
     emitted :=
       emitted m
       ++ (if changed reg status then [Notified reg status] else [])
       ++ (if decide (State' status = Stopped) then [MapDelete (name reg)]
           else []) |}.
Proof.
  intros Hm. unfold exec, handleStatus, bind, services_Load. rewrite Hm.
  unfold RegistryManager_update, bind, notifyWatched, emit, poke, ret.
  fold (changed reg status).
  assert (Halter : ∀ e,
    alter (λ _, registry_update reg status now) (Name status)
      (services {| services := services m; emitted := e |})
    = <[Name status := registry_update reg status now]> (services m)).
  { intros e. simpl. apply map_eq. intros k.
    rewrite lookup_alter, lookup_insert.
    destruct (decide (Name status = k)) as [<-|]; [by rewrite Hm|done]. }
  destruct (changed reg status); simpl;
    destruct (decide (State' status = Stopped)); simpl;
    unfold RegistryManager_unregister, services_Delete; simpl;
    rewrite ?app_nil_r; try specialize (Halter (emitted m)); simpl in *;
    rewrite ?Halter; try reflexivity;
    rewrite <- ?app_assoc; reflexivity.
Qed.

(** What the update path does to a tracked entry that is not reported
    Stopped: the notice exactly on a change of state or ready, the state of
    the report, the conditions of the report where they are not zero, the
    stamp; ready, onlineTime and offlineTime stay as stored. *)
Lemma handleStatus_update_effects (status : Status) (now : Z)
    (m : RegistryManager) (reg : registry) :
  services m !! Name status = Some reg →
  State' status ≠ Stopped →
  ∃ reg',
    services (exec (handleStatus (Decoded status) now) m) !! Name status
      = Some reg' ∧
    (state reg ≠ State' status ∨ ready reg ≠ Ready status →
     emitted (exec (handleStatus (Decoded status) now) m)
       = emitted m ++ [Notified reg status]) ∧
    (state reg = State' status ∧ ready reg = Ready status →
     emitted (exec (handleStatus (Decoded status) now) m) = emitted m) ∧
    state reg' = State' status ∧
    updateTime reg' = now ∧
    (CheckInterval status ≠ 0 → interval reg' = u64 (CheckInterval status)) ∧
    (CheckInterval status = 0 → interval reg' = interval reg) ∧
    (AllowFailures status ≠ 0 → threshold reg' = u64 (AllowFailures status)) ∧
    (AllowFailures status = 0 → threshold reg' = threshold reg) ∧
    ready reg' = ready reg ∧
    onlineTime reg' = onlineTime reg ∧
    offlineTime reg' = offlineTime reg.
Proof.
  intros Hm Hst. exists (registry_update reg status now).
  rewrite (handleStatus_tracked _ _ _ reg) by done. cbn [services emitted].
  destruct (decide (State' status = Stopped)); [done|].
  rewrite lookup_insert_eq, app_nil_r. split; [done|].
  split; [intros Hch; apply changed_true in Hch; by rewrite Hch|].
  split; [intros Hch; apply changed_false in Hch;
          by rewrite Hch, app_nil_r|].
  simpl.
  destruct (decide (CheckInterval status ≠ 0));
    destruct (decide (AllowFailures status ≠ 0));
    repeat split; intros; first [done | tauto | lia].
Qed.

End Reports.

Section Sweep.
Context `{Defaults}.

Lemma checkTimeout_visit_spec (now : Z) (key : string) (r : registry)
    (m : RegistryManager) :
  services m !! key = Some r →
  exec (checkTimeout_visit now key r) m =
  {| services := partial_alter (λ _, swept now r) key (services m);
     emitted := emitted m ++ swept_events now key r |}.
Proof.
  intros Hm. unfold exec, checkTimeout_visit, swept, swept_events.
  assert (Hsame : partial_alter (λ _, Some r) key (services m) = services m).
  { apply map_eq. intros k. rewrite lookup_partial_alter.
    destruct (decide (key = k)) as [<-|]; [by rewrite Hm|done]. }
  destruct (decide (state r = Offline)).
  - destruct (registry_dead r now); simpl.
    + reflexivity.
    + rewrite app_nil_r, Hsame. by destruct m.
  - destruct (registry_timeout r now); simpl.
    + f_equal. apply map_eq. intros k.
      rewrite lookup_alter, lookup_partial_alter.
      destruct (decide (key = k)) as [<-|]; [by rewrite Hm|done].
    + rewrite app_nil_r, Hsame. by destruct m.
Qed.

Lemma range_over_cons (f : string → registry → M unit) (key : string)
    (r : registry) (l : list (string * registry)) (m : RegistryManager) :
  exec (range_over f ((key, r) :: l)) m = exec (range_over f l) (exec (f key r) m).
Proof.
  unfold exec. simpl. unfold bind. by destruct (f key r m).
Qed.

(** The entries of a sweep are visited on their own: what the sweep leaves
    under a key depends on that entry alone. *)
Lemma range_over_lookup (now : Z) (l : list (string * registry))
    (m : RegistryManager) (key : string) :
  NoDup l.*1 →
  (∀ k r, (k, r) ∈ l → services m !! k = Some r) →
  services (exec (range_over (checkTimeout_visit now) l) m) !! key =
  match (list_to_map l : gmap string registry) !! key with
  | Some r => swept now r
  | None => services m !! key
  end.
Proof.
  revert m. induction l as [|[k0 r0] l IH]; intros m Hnd Hin.
  - reflexivity.
  - rewrite range_over_cons. simpl in Hnd. apply NoDup_cons in Hnd as [Hk0 Hnd].
    assert (Hm0 : services m !! k0 = Some r0) by (apply Hin; left).
    rewrite IH; [|done|].
    + rewrite checkTimeout_visit_spec by done. simpl.
      rewrite lookup_partial_alter, lookup_insert.
      destruct (decide (k0 = key)) as [->|Hne].
      * rewrite (not_elem_of_list_to_map_1 l key) by done. done.
      * done.
    + intros k r Hkr. rewrite checkTimeout_visit_spec by done. simpl.
      rewrite lookup_partial_alter_ne; [apply Hin; by right|].
      intros ->. apply Hk0. apply list_elem_of_fmap. by exists (k, r).
Qed.

(** The history grows by the events of the entries, in visiting order. *)
Lemma range_over_emitted (now : Z) (l : list (string * registry))
    (m : RegistryManager) :
  NoDup l.*1 →
  (∀ k r, (k, r) ∈ l → services m !! k = Some r) →
  emitted (exec (range_over (checkTimeout_visit now) l) m) =
  emitted m ++ concat (map (λ kr, swept_events now kr.1 kr.2) l).
Proof.
  revert m. induction l as [|[k0 r0] l IH]; intros m Hnd Hin.
  - simpl. by rewrite app_nil_r.
  - rewrite range_over_cons. simpl in Hnd. apply NoDup_cons in Hnd as [Hk0 Hnd].
    assert (Hm0 : services m !! k0 = Some r0) by (apply Hin; left).
    rewrite IH; [|done|].
    + rewrite checkTimeout_visit_spec by done. simpl.
      by rewrite <- app_assoc.
    + intros k r Hkr. rewrite checkTimeout_visit_spec by done. simpl.
      rewrite lookup_partial_alter_ne; [apply Hin; by right|].
      intros ->. apply Hk0. apply list_elem_of_fmap. by exists (k, r).
Qed.

Lemma checkTimeout_lookup (now : Z) (m : RegistryManager) (key : string) :
  services (exec (checkTimeout now) m) !! key =
  services m !! key ≫= swept now.
Proof.
  unfold checkTimeout, services_Range, exec.
  change (snd (range_over (checkTimeout_visit now) (map_to_list (services m)) m))
    with (exec (range_over (checkTimeout_visit now) (map_to_list (services m))) m).
  rewrite range_over_lookup.
  - rewrite list_to_map_to_list. by destruct (services m !! key).
  - apply NoDup_fst_map_to_list.
  - intros k r. apply elem_of_map_to_list.
Qed.

Lemma notices_of_app (key : string) (l1 l2 : list event) :
  notices_of key (l1 ++ l2) = notices_of key l1 ++ notices_of key l2.
Proof. unfold notices_of. apply List.filter_app. Qed.

Lemma notices_of_swept_other (now : Z) (key k : string) (r : registry) :
  name r = k → k ≠ key → notices_of key (swept_events now k r) = [].
Proof.
  intros Hname Hne. unfold swept_events.
  destruct (decide (state r = Offline)).
  - by destruct (registry_dead r now).
  - destruct (registry_timeout r now); [|done]. simpl.
    rewrite bool_decide_eq_false_2; [done|congruence].
Qed.

(** Of the events of a sweep, those about [key] come from its own entry. *)
Lemma notices_of_sweep (now : Z) (key : string)
    (l : list (string * registry)) :
  NoDup l.*1 →
  (∀ k r, (k, r) ∈ l → name r = k) →
  notices_of key (concat (map (λ kr, swept_events now kr.1 kr.2) l)) =
  match (list_to_map l : gmap string registry) !! key with
  | Some r => notices_of key (swept_events now key r)
  | None => []
  end.
Proof.
  induction l as [|[k0 r0] l IH]; intros Hnd Hwf; [done|].
  simpl in Hnd. apply NoDup_cons in Hnd as [Hk0 Hnd].
  simpl. rewrite notices_of_app, IH; [|done|by intros; apply Hwf; right].
  rewrite lookup_insert. destruct (decide (k0 = key)) as [->|Hne].
  - rewrite (not_elem_of_list_to_map_1 l key) by done. by rewrite app_nil_r.
  - rewrite (notices_of_swept_other now key k0 r0); [done| |done].
    apply Hwf. by left.
Qed.

Lemma checkTimeout_emitted (now : Z) (m : RegistryManager) :
  emitted (exec (checkTimeout now) m) =
  emitted m
  ++ concat (map (λ kr, swept_events now kr.1 kr.2)
               (map_to_list (services m))).
Proof.
  unfold checkTimeout, services_Range, exec.
  change (snd (range_over (checkTimeout_visit now) (map_to_list (services m)) m))
    with (exec (range_over (checkTimeout_visit now) (map_to_list (services m))) m).
  apply range_over_emitted.
  - apply NoDup_fst_map_to_list.
  - intros k r. apply elem_of_map_to_list.
Qed.

Lemma checkTimeout_notices (now : Z) (m : RegistryManager) (key : string) :
  store_wf (services m) →
  ∃ new, emitted (exec (checkTimeout now) m) = emitted m ++ new ∧
         notices_of key new =
         match services m !! key with
         | Some r => notices_of key (swept_events now key r)
         | None => []
         end.
Proof.
  intros Hwf. eexists. split; [apply checkTimeout_emitted|].
  rewrite notices_of_sweep.
  - by rewrite list_to_map_to_list.
  - apply NoDup_fst_map_to_list.
  - intros k r Hkr. apply Hwf. by apply elem_of_map_to_list.
Qed.

End Sweep.

Section Invariant.
Context `{Defaults}.

(** The entries stay under their own names. *)
Lemma store_wf_empty : store_wf ∅.
Proof. intros k r. by rewrite lookup_empty. Qed.

Lemma store_wf_handleStatus (data : payload) (now : Z) (m : RegistryManager) :
  store_wf (services m) → store_wf (services (exec (handleStatus data now) m)).
Proof.
  intros Hwf. destruct data as [|status]; [done|].
  destruct (services m !! Name status) as [reg|] eqn:Hm.
  - rewrite (handleStatus_tracked _ _ _ reg) by done. simpl.
    assert (Hreg : name reg = Name status) by by apply Hwf.
    assert (Hins : store_wf
      (<[Name status := registry_update reg status now]> (services m))).
    { intros k r. rewrite lookup_insert.
      destruct (decide (Name status = k)) as [<-|]; [|by apply Hwf].
      intros [= <-]. done. }
    destruct (decide (State' status = Stopped)); [|done].
    intros k r. rewrite lookup_delete.
    destruct (decide (name reg = k)); [done|by apply Hins].
  - rewrite handleStatus_unseen by done. simpl.
    intros k r. rewrite lookup_insert.
    destruct (decide (Name status = k)) as [<-|]; [|by apply Hwf].
    intros [= <-]. done.
Qed.

Lemma store_wf_checkTimeout (now : Z) (m : RegistryManager) :
  store_wf (services m) → store_wf (services (exec (checkTimeout now) m)).
Proof.
  intros Hwf k r. rewrite checkTimeout_lookup.
  destruct (services m !! k) as [r0|] eqn:Hm; [|done]. simpl.
  apply Hwf in Hm. unfold swept.
  destruct (decide (state r0 = Offline)).
  - destruct (registry_dead r0 now); [done|]. by intros [= <-].
  - destruct (registry_timeout r0 now); by intros [= <-].
Qed.

End Invariant.

(** C3. A sweep forces an entry that is not Offline into Offline (state
    Offline, not ready, updateTime and offlineTime stamped) and sends
    exactly one notice, of the entry as it was against its new status (its
    name and domain, state Offline, not ready, the time of the sweep), if
    and only if the time since its updateTime exceeds interval × threshold
    (both as the code computes them, in uint64); an entry within the bound
    is left as it is and nothing is sent about it. *)
Theorem checkTimeout_forces_silent_offline (m : RegistryManager) (now : Z)
    (key : string) (r : registry) :
  store_wf (services m) →
  services m !! key = Some r →
  state r ≠ Offline →
  ∃ new,
    emitted (exec (checkTimeout now) m) = emitted m ++ new ∧
    ((u64_sub now (updateTime r) > u64_mul (interval r) (threshold r) ∧
      ∃ r', services (exec (checkTimeout now) m) !! key = Some r' ∧
            state r' = Offline ∧ ready r' = false ∧
            updateTime r' = now ∧ offlineTime r' = now ∧
            name r' = name r ∧ domain r' = domain r ∧
            interval r' = interval r ∧ threshold r' = threshold r ∧
            purgeDelay r' = purgeDelay r ∧
            notices_of key new =
              [Notified r
                 {| Name := name r; Domain := domain r; State' := Offline;
                    Ready := false; Time := now;
                    CheckInterval := 0; AllowFailures := 0 |}])
     ∨
     (¬ u64_sub now (updateTime r) > u64_mul (interval r) (threshold r) ∧
      services (exec (checkTimeout now) m) !! key = Some r ∧
      notices_of key new = [])).
Proof.
  intros Hwf Hm Hst.
  destruct (checkTimeout_notices now m key Hwf) as (new & Hnew & Hnot).
  exists new. split; [done|].
  rewrite checkTimeout_lookup, Hm in *. simpl.
  assert (Hname : name r = key) by by apply Hwf.
  unfold swept, swept_events in *.
  destruct (decide (state r = Offline)); [done|].
  unfold registry_timeout in *.
  destruct (decide (u64_sub now (updateTime r)
                    > u64_mul (interval r) (threshold r))) as [Hlate|Hlate].
  - left. split; [done|]. rewrite bool_decide_eq_true_2 in * by done.
    exists (registry_offline r now). repeat split.
    rewrite Hnot. simpl. by rewrite bool_decide_eq_true_2.
  - right. split; [done|]. rewrite bool_decide_eq_false_2 in * by done.
    done.
Qed.

Lemma checkTimeout_forces_silent_offline_witness :
  ∃ new,
    emitted scenario.lost = emitted (scenario.registered Online true) ++ new ∧
    ((u64_sub 3100 0 > u64_mul 1000 3 ∧
      ∃ r', services scenario.lost !! "alpha" = Some r' ∧
            state r' = Offline ∧ ready r' = false ∧
            updateTime r' = 3100 ∧ offlineTime r' = 3100 ∧
            name r' = "alpha" ∧ domain r' = 1 ∧
            interval r' = 1000 ∧ threshold r' = 3 ∧ purgeDelay r' = 2 ∧
            notices_of "alpha" new =
              [Notified (scenario.alpha Online true)
                 {| Name := "alpha"; Domain := 1; State' := Offline;
                    Ready := false; Time := 3100;
                    CheckInterval := 0; AllowFailures := 0 |}])
     ∨
     (¬ u64_sub 3100 0 > u64_mul 1000 3 ∧
      services scenario.lost !! "alpha" = Some (scenario.alpha Online true) ∧
      notices_of "alpha" new = [])).
Proof.
  apply (checkTimeout_forces_silent_offline
           (scenario.registered Online true) 3100 "alpha"
           (scenario.alpha Online true)).
  - apply store_wf_handleStatus, store_wf_empty.
  - vm_compute. reflexivity.
  - discriminate.
Defined.

(** C4. A sweep removes an Offline entry from the store if and only if
    the time since its offlineTime exceeds interval × purgeDelay (both as
    the code computes them, in uint64), and a query for the name then fails
    with the not-found error; an Offline entry within the bound is left
    exactly as it is. *)
Theorem checkTimeout_purges_dead (m : RegistryManager) (now : Z)
    (key : string) (r : registry) :
  services m !! key = Some r →
  state r = Offline →
  (u64_sub now (offlineTime r) > u64_mul (interval r) (purgeDelay r) ∧
   services (exec (checkTimeout now) m) !! key = None ∧
   fst (handleQueryStatus (Params {| ReqName := key |})
          (exec (checkTimeout now) m)) =
     NewErrorResponse ErrServerInvalid "service name does not exist")
  ∨
  (¬ u64_sub now (offlineTime r) > u64_mul (interval r) (purgeDelay r) ∧
   services (exec (checkTimeout now) m) !! key = Some r).
Proof.
  intros Hm Hst.
  assert (Hlook := checkTimeout_lookup now m key). rewrite Hm in Hlook.
  simpl in Hlook. unfold swept in Hlook.
  destruct (decide (state r = Offline)); [|done].
  unfold registry_dead in Hlook.
  destruct (decide (u64_sub now (offlineTime r)
                    > u64_mul (interval r) (purgeDelay r))) as [Hdead|Hdead].
  - left. rewrite bool_decide_eq_true_2 in Hlook by done.
    split; [done|]. split; [done|].
    unfold handleQueryStatus, RegistryManager_get, bind, services_Load. simpl.
    by rewrite Hlook.
  - right. rewrite bool_decide_eq_false_2 in Hlook by done. done.
Qed.

Lemma checkTimeout_purges_dead_witness :
  (u64_sub 5200 3100 > u64_mul 1000 2 ∧
   services (exec (checkTimeout 5200) scenario.lost) !! "alpha" = None ∧
   fst (handleQueryStatus (Params {| ReqName := "alpha" |})
          (exec (checkTimeout 5200) scenario.lost)) =
     NewErrorResponse ErrServerInvalid "service name does not exist")
  ∨
  (¬ u64_sub 5200 3100 > u64_mul 1000 2 ∧
   services (exec (checkTimeout 5200) scenario.lost) !! "alpha" =
     Some (registry_offline (scenario.alpha Online true) 3100)).
Proof.
  apply (checkTimeout_purges_dead scenario.lost 5200 "alpha"
           (registry_offline (scenario.alpha Online true) 3100)).
  - vm_compute. reflexivity.
  - reflexivity.
Defined.

(** C5. A report with state Stopped for a tracked service removes the
    entry from the store within the same handleStatus, and the removal
    comes after the notice of the state or ready change, where there is
    one: the history grows by that notice, then by the services_Delete. *)
Theorem handleStatus_stopped_unregisters `{Defaults} (m : RegistryManager)
    (status : Status) (now : Z) (reg : registry) :
  store_wf (services m) →
  services m !! Name status = Some reg →
  State' status = Stopped →
  services (exec (handleStatus (Decoded status) now) m) !! Name status = None ∧
  (state reg ≠ Stopped ∨ ready reg ≠ Ready status →
   emitted (exec (handleStatus (Decoded status) now) m) =
   emitted m ++ [Notified reg status; MapDelete (Name status)]) ∧
  (state reg = Stopped ∧ ready reg = Ready status →
   emitted (exec (handleStatus (Decoded status) now) m) =
   emitted m ++ [MapDelete (Name status)]).
Proof.
  intros Hwf Hm Hst.
  assert (Hname : name reg = Name status) by by apply Hwf.
  rewrite (handleStatus_tracked _ _ _ reg) by done. simpl.
  destruct (decide (State' status = Stopped)); [|done].
  rewrite Hname. split; [apply lookup_delete_eq|]. split.
  - intros Hch. rewrite <- Hst in Hch. apply changed_true in Hch.
    by rewrite Hch.
  - intros Hsame. rewrite <- Hst in Hsame. apply changed_false in Hsame.
    by rewrite Hsame.
Qed.

Lemma handleStatus_stopped_unregisters_witness :
  services (scenario.heartbeat Stopped true 700
              (scenario.registered Online true)) !! "alpha" = None ∧
  (Online ≠ Stopped ∨ true ≠ true →
   emitted (scenario.heartbeat Stopped true 700
              (scenario.registered Online true)) =
   emitted (scenario.registered Online true)
   ++ [Notified (scenario.alpha Online true) (scenario.report Stopped true);
       MapDelete "alpha"]) ∧
  (Online = Stopped ∧ true = true →
   emitted (scenario.heartbeat Stopped true 700
              (scenario.registered Online true)) =
   emitted (scenario.registered Online true) ++ [MapDelete "alpha"]).
Proof.
  apply (handleStatus_stopped_unregisters (H := scenario.defaults)
           (scenario.registered Online true) (scenario.report Stopped true)
           700 (scenario.alpha Online true)).
  - apply store_wf_handleStatus, store_wf_empty.
  - vm_compute. reflexivity.
  - reflexivity.
Defined.

(** C8. A query returns the snapshot (name, domain, state, ready,
    updateTime) of the entry when the name is in the store, fails with the
    error "service name does not exist" exactly when it is not, and leaves
    the manager as it was in both cases. *)
Theorem handleQueryStatus_snapshot (m : RegistryManager) (n : string) :
  snd (handleQueryStatus (Params {| ReqName := n |}) m) = m ∧
  (∀ r, services m !! n = Some r →
        fst (handleQueryStatus (Params {| ReqName := n |}) m) =
        NewResponse (Params {| ReqName := n |})
          {| RspStatus :=
               {| Name := name r; Domain := domain r; State' := state r;
                  Ready := ready r; Time := updateTime r;
                  CheckInterval := 0; AllowFailures := 0 |} |}) ∧
  (fst (handleQueryStatus (Params {| ReqName := n |}) m) =
     NewErrorResponse ErrServerInvalid "service name does not exist"
   ↔ services m !! n = None).
Proof.
  unfold handleQueryStatus, RegistryManager_get, bind, services_Load, ret. simpl.
  destruct (services m !! n) as [r|] eqn:Hm; simpl.
  - split; [done|]. split; [by intros ? [= <-]|]. split; discriminate.
  - split; [done|]. split; [discriminate|]. done.
Qed.

Lemma handleQueryStatus_snapshot_witness :
  fst (handleQueryStatus (Params {| ReqName := "alpha" |})
         (scenario.registered Online true)) =
  NewResponse (Params {| ReqName := "alpha" |})
    {| RspStatus :=
         {| Name := "alpha"; Domain := 1; State' := Online;
            Ready := true; Time := 0;
            CheckInterval := 0; AllowFailures := 0 |} |}.
Proof.
  apply (proj1 (proj2 (handleQueryStatus_snapshot
                         (scenario.registered Online true) "alpha"))
           (scenario.alpha Online true)).
  vm_compute. reflexivity.
Defined.

(** C9. For a report with a non-zero checkInterval c (any c whose product
    with 1000 fits uint64, so every uint32), the registration of an unseen
    name stores interval = c × 1000 and the update of a tracked entry with
    the same report stores interval = c: the registered interval is 1000
    times the updated one. *)
Theorem interval_registered_1000_times_updated `{Defaults}
    (status : Status) (reg : registry) (now now' : Z) (m : RegistryManager) :
  0 < CheckInterval status →
  CheckInterval status * 1000 < u64_modulus →
  interval (RegistryManager_registry status now) = CheckInterval status * 1000 ∧
  interval (registry_update reg status now') = CheckInterval status ∧
  interval (RegistryManager_registry status now) =
    1000 * interval (registry_update reg status now') ∧
  (services m !! Name status = None →
   interval <$> services (exec (handleStatus (Decoded status) now) m)
                  !! Name status
     = Some (CheckInterval status * 1000) ∧
   (State' status ≠ Stopped →
    interval <$> services (exec (handleStatus (Decoded status) now')
                             (exec (handleStatus (Decoded status) now) m))
                   !! Name status
      = Some (CheckInterval status))).
Proof.
  intros Hpos Hfit.
  assert (Hc : u64 (CheckInterval status) = CheckInterval status).
  { apply u64_small. unfold u64_modulus in *. lia. }
  assert (Hreg : interval (RegistryManager_registry status now)
                 = CheckInterval status * 1000).
  { simpl. unfold u64_mul, SetIfEq. rewrite Hc.
    rewrite u64_small by (unfold u64_modulus in *; lia).
    destruct (decide (CheckInterval status * 1000 = 0)); [lia|done]. }
  assert (Hupd : ∀ r, interval (registry_update r status now')
                      = CheckInterval status).
  { intros r. simpl. destruct (decide (CheckInterval status ≠ 0)); [done|lia]. }
  split; [done|]. split; [done|]. split; [rewrite Hreg, Hupd; lia|].
  intros Hm. rewrite handleStatus_unseen by done. cbn [services].
  rewrite lookup_insert_eq. split; [by rewrite <- Hreg|].
  intros Hst.
  rewrite (handleStatus_tracked _ _ _ (RegistryManager_registry status now))
    by (cbn [services]; apply lookup_insert_eq).
  cbn [services]. destruct (decide (State' status = Stopped)); [done|].
  rewrite lookup_insert_eq. by rewrite <- (Hupd (RegistryManager_registry status now)).
Qed.

Lemma interval_registered_1000_times_updated_witness :
  interval (scenario.alpha Online true) = 1 * 1000 ∧
  interval (registry_update (scenario.alpha Online true)
              (scenario.report Online true) 1000) = 1 ∧
  interval (scenario.alpha Online true) =
    1000 * interval (registry_update (scenario.alpha Online true)
                       (scenario.report Online true) 1000) ∧
  (services scenario.fresh !! "alpha" = None →
   interval <$> services (scenario.registered Online true) !! "alpha"
     = Some (1 * 1000) ∧
   (Online ≠ Stopped →
    interval <$> services (scenario.heartbeat Online true 1000
                             (scenario.registered Online true)) !! "alpha"
      = Some 1)).
Proof.
  apply (interval_registered_1000_times_updated (H := scenario.defaults)
           (scenario.report Online true) (scenario.alpha Online true)
           0 1000 scenario.fresh).
  - simpl. lia.
  - vm_compute. reflexivity.
Defined.

(** C10. A report for an unseen name registers a new entry whatever its
    state: the entry is stored under the name with the reported state,
    the only map operation is that services_Store, and nothing is deleted; so
    a first report with state Stopped creates an entry and keeps it. *)
Theorem handleStatus_registers_unseen `{Defaults} (m : RegistryManager)
    (status : Status) (now : Z) :
  services m !! Name status = None →
  services (exec (handleStatus (Decoded status) now) m) !! Name status =
    Some (RegistryManager_registry status now) ∧
  state (RegistryManager_registry status now) = State' status ∧
  emitted (exec (handleStatus (Decoded status) now) m) =
    emitted m ++ [MapStore (Name status)] ∧
  (∀ key, key ≠ Name status →
          services (exec (handleStatus (Decoded status) now) m) !! key =
          services m !! key).
Proof.
  intros Hm. rewrite handleStatus_unseen by done. simpl.
  split; [apply lookup_insert_eq|]. split; [done|]. split; [done|].
  intros key Hne. by apply lookup_insert_ne.
Qed.

Lemma handleStatus_registers_unseen_witness :
  services (scenario.registered Stopped false) !! "alpha" =
    Some (scenario.alpha Stopped false) ∧
  state (scenario.alpha Stopped false) = Stopped ∧
  emitted (scenario.registered Stopped false) =
    emitted scenario.fresh ++ [MapStore "alpha"] ∧
  (∀ key, key ≠ "alpha" →
          services (scenario.registered Stopped false) !! key =
          services scenario.fresh !! key).
Proof.
  apply (handleStatus_registers_unseen (H := scenario.defaults)
           scenario.fresh (scenario.report Stopped false) 0).
  reflexivity.
Defined.

(** C1. "alpha" is tracked as Online and not ready; the report that it is
    ready is handled at 1000 ms.  The update sends the notice of the change
    (the entry as it was, the report), stores the state and stamps
    updateTime, and leaves the stored ready at false, against the report's
    true; the same report handled again is noticed again. *)
Theorem handleStatus_update_keeps_stale_ready :
  Ready (scenario.report Online true) = true ∧
  emitted (scenario.heartbeat Online true 1000
             (scenario.registered Online false)) =
    emitted (scenario.registered Online false)
    ++ [Notified (scenario.alpha Online false) (scenario.report Online true)] ∧
  (∃ r, services (scenario.heartbeat Online true 1000
                    (scenario.registered Online false)) !! "alpha" = Some r ∧
        state r = Online ∧ updateTime r = 1000 ∧ ready r = false) ∧
  emitted (scenario.heartbeat Online true 2000
             (scenario.heartbeat Online true 1000
                (scenario.registered Online false))) =
    emitted (scenario.heartbeat Online true 1000
               (scenario.registered Online false))
    ++ [Notified (registry_update (scenario.alpha Online false)
                    (scenario.report Online true) 1000)
          (scenario.report Online true)].
Proof.
  split; [reflexivity|]. split; [vm_compute; reflexivity|].
  split; [|vm_compute; reflexivity].
  eexists. split; [vm_compute; reflexivity|]. by repeat split.
Qed.

(** C2. "alpha" is tracked as Online, with offlineTime 0; the report that
    it is Offline is handled at 5000 ms.  The entry is now Offline and its
    offlineTime is still 0, where the forced transition of the sweep
    stamps it; the sweep one millisecond later finds the revival window
    long over and removes the entry. *)
Theorem handleStatus_offline_report_keeps_offlineTime :
  (∃ r, services (scenario.heartbeat Offline false 5000
                    (scenario.registered Online true)) !! "alpha" = Some r ∧
        state r = Offline ∧ updateTime r = 5000 ∧ offlineTime r = 0) ∧
  (∃ r, services scenario.lost !! "alpha" = Some r ∧
        state r = Offline ∧ updateTime r = 3100 ∧ offlineTime r = 3100) ∧
  services (exec (checkTimeout 5001)
              (scenario.heartbeat Offline false 5000
                 (scenario.registered Online true))) !! "alpha" = None.
Proof.
  split; [|split].
  - eexists. split; [vm_compute; reflexivity|]. by repeat split.
  - eexists. split; [vm_compute; reflexivity|]. by repeat split.
  - vm_compute. reflexivity.
Qed.

End service_facts.

(** ** Properties of the state machine *)

Module meta_facts.
Import meta.

Section Trigger.
Context {Act Arg : Type}.
Implicit Types (sm : StateMachine Act Arg) (s : State Act Arg).





End Trigger.



(** C7. Calls that panic: [GetState] on a new machine; [MoveToState] and
    [Startup] on a machine set up with its states, its starting and its
    stopping state, both through [GetState]; [trigger] on a new machine;
    and the second tick of the stopping state, which closes the closed
    channel, where the first tick raised the signal. *)
Theorem machine_calls_panic :
  GetState (NewStateMachine (Act := string) (Arg := unit) "demo" 100)
    = Panic NilInterfaceConversion ∧
  machine_scenario.setup (NewStateMachine "demo" 100)
    = Ok (true, machine_scenario.configured) ∧
  MoveToState "A" machine_scenario.configured = Panic NilInterfaceConversion ∧
  Startup machine_scenario.configured = Panic NilInterfaceConversion ∧
  StateMachine_trigger machine_scenario.configured
    = Panic NilInterfaceConversion ∧
  (∃ sm', ticks 1 machine_scenario.stopping_now = Ok (tt, sm') ∧
          stopped sm' = true ∧ invoked sm' = [("flag", tt)]) ∧
  ticks 2 machine_scenario.stopping_now = Panic CloseOfClosedChannel.
Proof.
  split; [reflexivity|]. split; [vm_compute; reflexivity|].
  split; [reflexivity|]. split; [vm_compute; reflexivity|].
  split; [reflexivity|]. split; [|vm_compute; reflexivity].
  eexists. split; [vm_compute; reflexivity|]. by split.
Qed.

End meta_facts.

(** ** Further properties of the registry *)

Module registry_facts.
Import service service_facts.

(** *** The store over the life of a manager *)

Lemma store_wf_perform `{Defaults} (o : operation) (m : RegistryManager) :
  store_wf (services m) → store_wf (services (exec (perform o) m)).
Proof.
  destruct o; simpl; [apply store_wf_handleStatus|apply store_wf_checkTimeout].
Qed.

(** X1. Whatever heartbeats and sweeps a manager has handled since it was
    created, every entry of its store sits under its own name. *)
Theorem run_store_wf `{Defaults} (ops : list operation) (e : list event) :
  store_wf (services (run ops {| services := ∅; emitted := e |})).
Proof.
  unfold run.
  assert (Hgen : ∀ m, store_wf (services m) →
            store_wf (services (fold_left (λ m o, exec (perform o) m) ops m))).
  { induction ops as [|o ops IH]; intros m Hm; [done|].
    simpl. apply IH. by apply store_wf_perform. }
  apply Hgen. simpl. apply store_wf_empty.
Qed.

(** X2. A heartbeat leaves the entries of all other services as they are. *)
Theorem handleStatus_other_entries `{Defaults} (m : RegistryManager)
    (status : Status) (now : Z) (key : string) :
  store_wf (services m) →
  key ≠ Name status →
  services (exec (handleStatus (Decoded status) now) m) !! key
  = services m !! key.
Proof.
  intros Hwf Hne. destruct (services m !! Name status) as [reg|] eqn:Hm.
  - rewrite (handleStatus_tracked _ _ _ reg) by done. cbn [services].
    assert (Hname : name reg = Name status) by by apply Hwf.
    destruct (decide (State' status = Stopped)).
    + rewrite Hname, lookup_delete_ne, lookup_insert_ne by done. done.
    + by rewrite lookup_insert_ne.
  - rewrite handleStatus_unseen by done. cbn [services].
    by rewrite lookup_insert_ne.
Qed.

Lemma handleStatus_other_entries_witness :
  services scenario.both !! "alpha" = Some (scenario.alpha Online true) ∧
  services scenario.both !! "beta" = Some scenario.beta ∧
  services (scenario.heartbeat Stopped true 700 scenario.both) !! "alpha"
    = None ∧
  services (scenario.heartbeat Stopped true 700 scenario.both) !! "beta"
    = services scenario.both !! "beta".
Proof.
  split; [vm_compute; reflexivity|]. split; [vm_compute; reflexivity|].
  split; [vm_compute; reflexivity|].
  apply (handleStatus_other_entries (H := scenario.defaults)
           scenario.both (scenario.report Stopped true) 700 "beta").
  - apply (store_wf_handleStatus (H := scenario.defaults)),
      (store_wf_handleStatus (H := scenario.defaults)), store_wf_empty.
  - discriminate.
Defined.

(** *** Count and Registered *)

Lemma int_wrap_small (z : Z) : - 2 ^ 63 ≤ z < 2 ^ 63 → int_wrap z = z.
Proof. intros Hz. unfold int_wrap. rewrite Z.mod_small; lia. Qed.

Lemma range_fold_count (l : list (string * registry)) (c : Z) :
  0 ≤ c → c + Z.of_nat (length l) < 2 ^ 63 →
  range_fold (λ _ _ counter, int_wrap (counter + 1)) l c
  = c + Z.of_nat (length l).
Proof.
  revert c. induction l as [|[k r] l IH]; intros c Hc Hfit; simpl in *.
  - lia.
  - rewrite int_wrap_small by lia. rewrite IH by lia. lia.
Qed.

Lemma Count_size (m : RegistryManager) :
  Z.of_nat (size (services m)) < 2 ^ 63 →
  Count m = (Z.of_nat (size (services m)), m).
Proof.
  intros Hfit. unfold Count, services_Range_fold.
  rewrite range_fold_count; rewrite ?length_map_to_list; try lia.
  by rewrite Z.add_0_l.
Qed.

(** X3. The registration of an unseen name makes it Registered and raises
    Count by one. *)
Theorem register_raises_Count `{Defaults} (m : RegistryManager)
    (status : Status) (now : Z) :
  services m !! Name status = None →
  Z.of_nat (size (services m)) + 1 < 2 ^ 63 →
  fst (Registered (Name status) m) = false ∧
  fst (Registered (Name status) (exec (handleStatus (Decoded status) now) m))
    = true ∧
  fst (Count (exec (handleStatus (Decoded status) now) m))
    = fst (Count m) + 1.
Proof.
  intros Hm Hfit. rewrite handleStatus_unseen by done.
  unfold Registered, bind, services_Load. cbn [services].
  rewrite Hm, lookup_insert_eq. split; [done|]. split; [done|].
  rewrite !Count_size; cbn [services fst];
    rewrite ?map_size_insert_None by done; lia.
Qed.

Lemma register_raises_Count_witness :
  fst (Registered "alpha" scenario.fresh) = false ∧
  fst (Registered "alpha" (scenario.registered Online true)) = true ∧
  fst (Count (scenario.registered Online true))
    = fst (Count scenario.fresh) + 1.
Proof.
  apply (register_raises_Count (H := scenario.defaults)
           scenario.fresh (scenario.report Online true) 0).
  - reflexivity.
  - vm_compute. reflexivity.
Defined.

(** X4. The Stopped report of a tracked name makes it not Registered and
    lowers Count by one. *)
Theorem stopped_lowers_Count `{Defaults} (m : RegistryManager)
    (status : Status) (now : Z) (reg : registry) :
  store_wf (services m) →
  services m !! Name status = Some reg →
  State' status = Stopped →
  Z.of_nat (size (services m)) < 2 ^ 63 →
  fst (Registered (Name status) (exec (handleStatus (Decoded status) now) m))
    = false ∧
  fst (Count (exec (handleStatus (Decoded status) now) m))
    = fst (Count m) - 1.
Proof.
  intros Hwf Hm Hst Hfit.
  assert (Hname : name reg = Name status) by by apply Hwf.
  rewrite (handleStatus_tracked _ _ _ reg) by done.
  unfold Registered, bind, services_Load. cbn [services].
  destruct (decide (State' status = Stopped)); [|done].
  rewrite Hname, lookup_delete_eq. split; [done|].
  assert (Hsize : size (delete (Name status)
                     (<[Name status := registry_update reg status now]>
                        (services m)))
                  = pred (size (services m))).
  { rewrite delete_insert_eq. by apply map_size_delete_Some. }
  assert (Hpos : (0 < size (services m))%nat).
  { destruct (decide (size (services m) = 0%nat)) as [Hz|]; [|lia].
    apply map_size_empty_inv in Hz. rewrite Hz, lookup_empty in Hm. done. }
  rewrite !Count_size; cbn [services fst]; rewrite ?Hsize; lia.
Qed.

Lemma stopped_lowers_Count_witness :
  fst (Registered "alpha" (scenario.heartbeat Stopped true 700
                             (scenario.registered Online true))) = false ∧
  fst (Count (scenario.heartbeat Stopped true 700
                (scenario.registered Online true)))
    = fst (Count (scenario.registered Online true)) - 1.
Proof.
  apply (stopped_lowers_Count (H := scenario.defaults)
           (scenario.registered Online true) (scenario.report Stopped true)
           700 (scenario.alpha Online true)).
  - apply store_wf_handleStatus, store_wf_empty.
  - vm_compute. reflexivity.
  - reflexivity.
  - vm_compute. reflexivity.
Defined.

(** *** The sweep *)

Lemma u64_mul_nonneg (a b : Z) : 0 ≤ u64_mul a b.
Proof. unfold u64_mul. apply u64_range. Qed.

Lemma u64_sub_diag (a : Z) : u64_sub a a = 0.
Proof. unfold u64_sub, u64. by rewrite Z.sub_diag. Qed.

(** An entry a sweep has just dealt with gives the sweep nothing more to
    do at the same instant. *)
Lemma swept_settled (now : Z) (r r' : registry) :
  swept now r = Some r' →
  swept now r' = Some r' ∧ ∀ key, swept_events now key r' = [].
Proof.
  unfold swept, swept_events. intros Hs.
  destruct (decide (state r = Offline)) as [Hoff|Hon].
  - destruct (registry_dead r now) eqn:Hd; [done|]. injection Hs as <-.
    destruct (decide (state r = Offline)); [|done]. by rewrite Hd.
  - destruct (registry_timeout r now) eqn:Ht; injection Hs as <-.
    + cbn [state registry_offline].
      destruct (decide (Offline = Offline)); [|done].
      assert (Hd : registry_dead (registry_offline r now) now = false).
      { unfold registry_dead. cbn [offlineTime interval purgeDelay
                                     registry_offline].
        rewrite u64_sub_diag. apply bool_decide_eq_false_2.
        pose proof (u64_mul_nonneg (interval r) (purgeDelay r)). lia. }
      by rewrite Hd.
    + destruct (decide (state r = Offline)); [done|]. by rewrite Ht.
Qed.

Lemma concat_swept_events_nil (now : Z) (l : list (string * registry)) :
  (∀ k r, (k, r) ∈ l → swept_events now k r = []) →
  concat (map (λ kr, swept_events now kr.1 kr.2) l) = [].
Proof.
  induction l as [|[k r] l IH]; intros Hall; [done|].
  simpl. rewrite (Hall k r) by left. apply IH.
  intros k' r' Hin. apply Hall. by right.
Qed.

(** X5. A sweep run again at the same instant changes nothing and sends
    nothing. *)
Theorem checkTimeout_idempotent (now : Z) (m : RegistryManager) :
  exec (checkTimeout now) (exec (checkTimeout now) m)
  = exec (checkTimeout now) m.
Proof.
  set (m1 := exec (checkTimeout now) m).
  assert (Hsettled : ∀ k r', services m1 !! k = Some r' →
            swept now r' = Some r' ∧ ∀ key, swept_events now key r' = []).
  { intros k r'. unfold m1. rewrite checkTimeout_lookup.
    destruct (services m !! k) as [r|]; [|done]. simpl. apply swept_settled. }
  assert (Hserv : services (exec (checkTimeout now) m1) = services m1).
  { apply map_eq. intros k. rewrite checkTimeout_lookup.
    destruct (services m1 !! k) as [r'|] eqn:Hk; [|done]. simpl.
    by apply (Hsettled k). }
  assert (Hemit : emitted (exec (checkTimeout now) m1) = emitted m1).
  { rewrite checkTimeout_emitted, concat_swept_events_nil.
    - apply app_nil_r.
    - intros k r' Hin. apply elem_of_map_to_list in Hin.
      by apply (Hsettled k). }
  destruct (exec (checkTimeout now) m1) as [σ e]. destruct m1 as [σ1 e1].
  simpl in *. by subst.
Qed.

(** X6. A sweep adds no entry, and what it leaves of an entry has the name,
    domain, onlineTime, interval, threshold and purgeDelay it had. *)
Theorem checkTimeout_keeps_identity (now : Z) (m : RegistryManager)
    (key : string) (r' : registry) :
  services (exec (checkTimeout now) m) !! key = Some r' →
  ∃ r, services m !! key = Some r ∧
       name r' = name r ∧ domain r' = domain r ∧
       onlineTime r' = onlineTime r ∧ interval r' = interval r ∧
       threshold r' = threshold r ∧ purgeDelay r' = purgeDelay r.
Proof.
  rewrite checkTimeout_lookup.
  destruct (services m !! key) as [r|]; [|done]. simpl.
  intros Hs. exists r. split; [done|]. unfold swept in Hs.
  destruct (decide (state r = Offline)).
  - destruct (registry_dead r now); [done|]. by injection Hs as <-.
  - destruct (registry_timeout r now); by injection Hs as <-.
Qed.

Lemma checkTimeout_keeps_identity_witness :
  ∃ r, services (scenario.registered Online true) !! "alpha" = Some r ∧
       name (registry_offline (scenario.alpha Online true) 3100) = name r ∧
       domain (registry_offline (scenario.alpha Online true) 3100) = domain r ∧
       onlineTime (registry_offline (scenario.alpha Online true) 3100)
         = onlineTime r ∧
       interval (registry_offline (scenario.alpha Online true) 3100)
         = interval r ∧
       threshold (registry_offline (scenario.alpha Online true) 3100)
         = threshold r ∧
       purgeDelay (registry_offline (scenario.alpha Online true) 3100)
         = purgeDelay r.
Proof.
  apply (checkTimeout_keeps_identity 3100 (scenario.registered Online true)
           "alpha").
  vm_compute. reflexivity.
Defined.

(** X7. What a sweep does shows in its events: a notice is about an entry that
    was not Offline and reports it Offline and not ready under its own
    name; a Delete removes an Offline entry of the store; there is no
    Store. *)
Theorem checkTimeout_events (now : Z) (m : RegistryManager) :
  ∃ new,
    emitted (exec (checkTimeout now) m) = emitted m ++ new ∧
    ∀ e, e ∈ new →
      match e with
      | Notified old new =>
          (∃ key, services m !! key = Some old) ∧ state old ≠ Offline ∧
          Name new = name old ∧ State' new = Offline ∧ Ready new = false ∧
          Time new = now
      | MapDelete key =>
          ∃ r, services m !! key = Some r ∧ state r = Offline
      | MapStore _ => False
      end.
Proof.
  eexists. split; [apply checkTimeout_emitted|].
  intros e He. apply list_elem_of_In, in_concat in He as (evs & Hevs & He).
  apply in_map_iff in Hevs as ([k r] & <- & Hkr).
  apply list_elem_of_In, elem_of_map_to_list in Hkr.
  simpl in He. unfold swept_events in He.
  destruct (decide (state r = Offline)).
  - destruct (registry_dead r now); [|done].
    destruct He as [<-|[]]. by exists r.
  - destruct (registry_timeout r now); [|done].
    destruct He as [<-|[]]. repeat split; try done. by exists k.
Qed.

(** X8. A heartbeat protects its entry: where a tracked service reported
    neither Stopped nor Offline at [now], a sweep at [now'], no later than
    interval × threshold after it, leaves the updated entry as it is. *)
Theorem heartbeat_within_window_survives `{Defaults} (m : RegistryManager)
    (status : Status) (now now' : Z) (reg : registry) :
  services m !! Name status = Some reg →
  State' status ≠ Stopped →
  State' status ≠ Offline →
  0 ≤ now ≤ now' →
  now' < u64_modulus →
  0 ≤ interval (registry_update reg status now)
      * threshold (registry_update reg status now) < u64_modulus →
  now' - now ≤ interval (registry_update reg status now)
               * threshold (registry_update reg status now) →
  services (exec (checkTimeout now')
              (exec (handleStatus (Decoded status) now) m)) !! Name status
  = Some (registry_update reg status now).
Proof.
  intros Hm Hstop Hoff Hnow Hfit Hprod Hwin.
  rewrite checkTimeout_lookup.
  rewrite (handleStatus_tracked _ _ _ reg) by done. cbn [services].
  destruct (decide (State' status = Stopped)); [done|].
  rewrite lookup_insert_eq. cbn [mbind option_bind]. unfold swept.
  destruct (decide (state (registry_update reg status now) = Offline));
    [done|].
  destruct (registry_timeout (registry_update reg status now) now') eqn:Ht;
    [|done].
  apply registry_timeout_exact in Ht; [|done..]. cbn [updateTime registry_update] in Ht.
  lia.
Qed.

Lemma heartbeat_within_window_survives_witness :
  services (exec (checkTimeout 3002)
              (scenario.heartbeat Online true 3000
                 (scenario.registered Online true))) !! "alpha"
  = Some (registry_update (scenario.alpha Online true)
            (scenario.report Online true) 3000).
Proof.
  apply (heartbeat_within_window_survives (H := scenario.defaults)
           (scenario.registered Online true) (scenario.report Online true)
           3000 3002 (scenario.alpha Online true)).
  - vm_compute. reflexivity.
  - discriminate.
  - discriminate.
  - lia.
  - vm_compute. reflexivity.
  - vm_compute. split; [discriminate|reflexivity].
  - vm_compute. discriminate.
Defined.

(** *** Defaults *)



(** *** The list query *)

Lemma range_fold_all (l : list (string * registry)) (acc : list registry) :
  range_fold (λ _ value lst, lst ++ [value]) l acc = acc ++ l.*2.
Proof.
  revert acc. induction l as [|[k r] l IH]; intros acc; simpl.
  - by rewrite app_nil_r.
  - rewrite IH. by rewrite <- app_assoc.
Qed.

Lemma all_values (m : RegistryManager) :
  all m = ((map_to_list (services m)).*2, m).
Proof. unfold all, services_Range_fold. by rewrite range_fold_all. Qed.

Lemma append_every (l : list registry) (acc : list Status) :
  fold_left
    (λ lst reg,
       lst ++ [{| Name := name reg; Domain := domain reg;
                  State' := state reg; Ready := ready reg;
                  Time := updateTime reg;
                  CheckInterval := 0; AllowFailures := 0 |}]) l acc
  = acc ++ (registry_toStatus <$> l).
Proof.
  revert acc. induction l as [|r l IH]; intros acc; simpl.
  - by rewrite app_nil_r.
  - rewrite IH. by rewrite <- app_assoc.
Qed.

(** Among entries under their own, distinct names the inner loop finds the
    wanted one, once, or none. *)
Lemma append_named_lookup (l : list (string * registry)) (wanted : string)
    (acc : list Status) :
  NoDup l.*1 →
  (∀ k r, (k, r) ∈ l → name r = k) →
  append_named l.*2 wanted acc
  = acc ++ match (list_to_map l : gmap string registry) !! wanted with
           | Some r => [registry_toStatus r]
           | None => []
           end.
Proof.
  unfold append_named.
  revert acc. induction l as [|[k0 r0] l IH]; intros acc Hnd Hwf.
  - simpl. by rewrite app_nil_r.
  - simpl in Hnd. apply NoDup_cons in Hnd as [Hk0 Hnd].
    assert (Hname : name r0 = k0) by (apply Hwf; left).
    simpl. rewrite IH; [|done|by intros; apply Hwf; right].
    rewrite lookup_insert. subst k0.
    destruct (decide (name r0 = wanted)) as [Heq|Hne].
    + rewrite (not_elem_of_list_to_map_1 l wanted) by by rewrite <- Heq.
      by rewrite app_nil_r.
    + done.
Qed.

Lemma append_whitelist (σ : gmap string registry) (whitelist : list string)
    (acc : list Status) :
  store_wf σ →
  fold_left (λ lst wanted, append_named (map_to_list σ).*2 wanted lst)
    whitelist acc
  = acc ++ omap (λ wanted, registry_toStatus <$> σ !! wanted) whitelist.
Proof.
  intros Hwf. revert acc.
  induction whitelist as [|n whitelist IH]; intros acc; simpl.
  - by rewrite app_nil_r.
  - rewrite IH, append_named_lookup.
    + rewrite list_to_map_to_list.
      destruct (σ !! n); simpl; by rewrite <- app_assoc.
    + apply NoDup_fst_map_to_list.
    + intros k r Hkr. apply Hwf. by apply elem_of_map_to_list.
Qed.

(** X10. Without a whitelist the list query answers with the snapshot of every
    entry and of nothing else, as many as Count counts, and leaves the
    manager as it was. *)
Theorem handleQueryStatusList_all (m : RegistryManager) :
  ∃ lst,
    handleQueryStatusList (ListParams {| Observed := [] |}) m
    = (NewListResponse (ListParams {| Observed := [] |})
         {| RspList := {| Services := lst |} |}, m) ∧
    length lst = size (services m) ∧
    (∀ st, st ∈ lst ↔
           ∃ key r, services m !! key = Some r ∧ st = registry_toStatus r) ∧
    (Z.of_nat (size (services m)) < 2 ^ 63 →
     fst (Count m) = Z.of_nat (length lst)).
Proof.
  exists (registry_toStatus <$> (map_to_list (services m)).*2).
  split; [|split; [|split]].
  - unfold handleQueryStatusList, bind. rewrite all_values. simpl.
    by rewrite append_every.
  - by rewrite !length_fmap, length_map_to_list.
  - intros st. rewrite list_elem_of_fmap. split.
    + intros (r & -> & Hr). apply list_elem_of_fmap in Hr as ([k r'] & -> & Hkr).
      apply elem_of_map_to_list in Hkr. by exists k, r'.
    + intros (k & r & Hkr & ->). exists r. split; [done|].
      apply list_elem_of_fmap. exists (k, r). split; [done|].
      by apply elem_of_map_to_list.
  - intros Hfit. rewrite Count_size by done.
    by rewrite !length_fmap, length_map_to_list.
Qed.

Lemma handleQueryStatusList_all_witness :
  fst (Count (scenario.registered Online true)) = 1.
Proof.
  destruct (handleQueryStatusList_all (scenario.registered Online true))
    as (lst & _ & Hlen & _ & Hcount).
  rewrite Hcount, Hlen; vm_compute; reflexivity.
Defined.

(** X11. With a whitelist, and the entries under their own names, the list
    query answers with the snapshots of the listed names that are tracked,
    in the order of the whitelist and as often as it lists them; a name
    that is not tracked is passed over.  The manager is left as it was. *)
Theorem handleQueryStatusList_whitelist (m : RegistryManager)
    (whitelist : list string) :
  store_wf (services m) →
  whitelist ≠ [] →
  handleQueryStatusList (ListParams {| Observed := whitelist |}) m
  = (NewListResponse (ListParams {| Observed := whitelist |})
       {| RspList :=
            {| Services :=
                 omap (λ wanted, registry_toStatus <$> services m !! wanted)
                      whitelist |} |}, m).
Proof.
  intros Hwf Hne. unfold handleQueryStatusList, bind. rewrite all_values.
  cbn [Observed]. rewrite bool_decide_eq_true_2.
  - by rewrite append_whitelist.
  - by destruct whitelist.
Qed.

Lemma handleQueryStatusList_whitelist_witness :
  handleQueryStatusList
    (ListParams {| Observed := ["ghost"; "alpha"; "alpha"] |})
    (scenario.registered Online true)
  = (NewListResponse
       (ListParams {| Observed := ["ghost"; "alpha"; "alpha"] |})
       {| RspList :=
            {| Services :=
                 omap (λ wanted,
                         registry_toStatus
                           <$> services (scenario.registered Online true)
                                 !! wanted)
                      ["ghost"; "alpha"; "alpha"] |} |},
     scenario.registered Online true).
Proof.
  apply (handleQueryStatusList_whitelist (scenario.registered Online true)
           ["ghost"; "alpha"; "alpha"]).
  - apply store_wf_handleStatus, store_wf_empty.
  - discriminate.
Defined.

End registry_facts.

(** ** Further properties of the state machine *)

Module machine_facts.
Import meta.

Local Notation "'let*' x := c 'in' k" := (bind c (λ x, k))
  (at level 10, x name, c at level 200, k at level 200).
Local Notation "c >> k" := (bind c (λ _, k))
  (at level 100, k at level 200, right associativity).

Lemma with_current_same {Act Arg : Type} (sm : StateMachine Act Arg)
    (cur : string) :
  current sm = Some cur → with_current (Some cur) sm = sm.
Proof. destruct sm. simpl. by intros ->. Qed.

Lemma MoveToState_same {Act Arg : Type} (sm : StateMachine Act Arg)
    (cur : string) :
  current sm = Some cur → MoveToState cur sm = Ok (true, sm).
Proof.
  intros Hcur. unfold MoveToState, bind, GetState, get, put, ret.
  rewrite Hcur. rewrite bool_decide_eq_true_2 by done. by rewrite Hcur.
Qed.

Lemma MoveToState_registered {Act Arg : Type} (sm : StateMachine Act Arg)
    (cur s : string) :
  current sm = Some cur →
  is_Some (states sm !! s) →
  MoveToState s sm = Ok (true, with_current (Some s) sm).
Proof.
  intros Hcur [st Hs]. destruct (decide (cur = s)) as [->|Hne].
  - rewrite with_current_same by done. by apply MoveToState_same.
  - unfold MoveToState, bind, GetState, get, put, ret.
    rewrite Hcur. rewrite bool_decide_eq_false_2 by done. rewrite Hs.
    destruct (trace sm); [by rewrite Hcur|done].
Qed.

Lemma MoveToState_unknown {Act Arg : Type} (sm : StateMachine Act Arg)
    (cur s : string) :
  current sm = Some cur →
  s ≠ cur →
  states sm !! s = None →
  MoveToState s sm = Ok (false, sm).
Proof.
  intros Hcur Hne Hs. unfold MoveToState, bind, GetState, get, put, ret.
  rewrite Hcur. rewrite bool_decide_eq_false_2 by done. by rewrite Hs.
Qed.

(** X12. [MoveToState] asks for membership only: it succeeds exactly for the
    current state and for a registered one, the current state is then the
    requested one and otherwise what it was, and nothing else of the
    machine changes, tick counters included. *)
Theorem MoveToState_outcome {Act Arg : Type} (sm : StateMachine Act Arg)
    (cur s : string) :
  current sm = Some cur →
  ∃ b : bool,
    MoveToState s sm
    = Ok (b, with_current (Some (if b then s else cur)) sm) ∧
    (b = true ↔ s = cur ∨ is_Some (states sm !! s)).
Proof.
  intros Hcur. destruct (decide (s = cur)) as [->|Hne].
  - exists true. rewrite with_current_same by done.
    split; [by apply MoveToState_same|tauto].
  - destruct (states sm !! s) as [st|] eqn:Hs.
    + exists true. split; [by apply (MoveToState_registered sm cur); eauto|].
      split; [by eauto|done].
    + exists false. rewrite with_current_same by done.
      split; [by apply (MoveToState_unknown sm cur)|].
      split; [done|]. intros [->|[? [=]]]. done.
Qed.

Lemma MoveToState_outcome_witness :
  ∃ b : bool,
    MoveToState "A" machine_scenario.stopping_now
    = Ok (b, with_current (Some (if b then "A" else "B"))
               machine_scenario.stopping_now) ∧
    (b = true ↔
     "A" = "B" ∨ is_Some (states machine_scenario.stopping_now !! "A")).
Proof.
  apply (MoveToState_outcome machine_scenario.stopping_now "B" "A").
  reflexivity.
Defined.

(** X13. The current state saved, the machine moved to another registered
    state and the saved state restored: the machine is in the state it
    was in, which is also the saved one; [SaveState] straight followed by
    [RestoreState] changes the saved name only. *)
Theorem SaveState_RestoreState_round_trip {Act Arg : Type}
    (sm : StateMachine Act Arg) (cur t : string) :
  current sm = Some cur →
  is_Some (states sm !! cur) →
  is_Some (states sm !! t) →
  (SaveState >> MoveToState t >> RestoreState) sm
    = Ok (tt, with_saved cur sm) ∧
  (SaveState >> RestoreState) sm = Ok (tt, with_saved cur sm) ∧
  current (with_saved cur sm) = Some cur.
Proof.
  intros Hcur Hreg Ht.
  assert (Hsave : SaveState sm = Ok (tt, with_saved cur sm)).
  { unfold SaveState, bind, GetState, get, put. by rewrite Hcur. }
  assert (Hback : ∀ sm1 : StateMachine Act Arg,
            current sm1 = Some t ∨ current sm1 = Some cur →
            saved sm1 = cur → is_Some (states sm1 !! cur) →
            RestoreState sm1 = Ok (tt, with_current (Some cur) sm1)).
  { intros sm1 Hc1 Hs1 Hr1. unfold RestoreState, bind, get, ret.
    rewrite Hs1. destruct Hc1 as [Hc1|Hc1];
      by rewrite (MoveToState_registered sm1 _ cur Hc1 Hr1). }
  split; [|split; [|done]].
  - unfold bind at 1. rewrite Hsave. unfold bind at 1.
    rewrite (MoveToState_registered (with_saved cur sm) cur t) by done.
    rewrite Hback; [|by left|done|done].
    f_equal. f_equal. destruct sm. simpl in *. by subst.
  - unfold bind at 1. rewrite Hsave.
    rewrite Hback; [|by right|done|done].
    f_equal. f_equal. destruct sm. simpl in *. by subst.
Qed.

Lemma SaveState_RestoreState_round_trip_witness :
  (SaveState >> MoveToState "A" >> RestoreState)
    machine_scenario.stopping_now
    = Ok (tt, with_saved "B" machine_scenario.stopping_now) ∧
  (SaveState >> RestoreState) machine_scenario.stopping_now
    = Ok (tt, with_saved "B" machine_scenario.stopping_now) ∧
  current (with_saved "B" machine_scenario.stopping_now) = Some "B".
Proof.
  apply (SaveState_RestoreState_round_trip machine_scenario.stopping_now
           "B" "A").
  - reflexivity.
  - vm_compute. eauto.
  - vm_compute. eauto.
Defined.

(** *** Registration *)

Lemma RegisterState_accepted {Act Arg : Type} (sm : StateMachine Act Arg)
    (st : State Act Arg) :
  Name st ≠ "" →
  RegisterState (Some st) sm
  = Ok (true, with_states (insert (Name st) (with_tickCnt 0 st)) sm).
Proof.
  intros Hname. unfold RegisterState, bind, get, put, ret.
  rewrite bool_decide_eq_false_2; [done|].
  destruct (Name st); [done|discriminate].
Qed.

Lemma RegisterState_refused {Act Arg : Type} (sm : StateMachine Act Arg)
    (s : option (State Act Arg)) :
  ¬ acceptable s → RegisterState s sm = Ok (false, sm).
Proof.
  intros Hbad. destruct s as [st|]; [|done].
  unfold RegisterState, ret. rewrite bool_decide_eq_true_2; [done|].
  destruct (Name st) eqn:Hn; [done|].
  exfalso. apply Hbad. exists st. split; [done|]. by rewrite Hn.
Qed.

Lemma with_states_id {Act Arg : Type} (sm : StateMachine Act Arg) :
  with_states (λ σ, σ) sm = sm.
Proof. by destruct sm. Qed.

Lemma RegisterStates_prefix {Act Arg : Type} (sm : StateMachine Act Arg)
    (ss rest : list (option (State Act Arg))) :
  Forall acceptable ss →
  RegisterStates (ss ++ rest) sm
  = RegisterStates rest (with_states (λ σ, registered_into σ ss) sm).
Proof.
  intros Hok. revert sm. induction Hok as [|s ss Hs Hss IH]; intros sm.
  - simpl. by rewrite with_states_id.
  - destruct Hs as (st & -> & Hname).
    change (RegisterStates ((Some st :: ss) ++ rest) sm)
      with ((let* ok := RegisterState (Some st) in
             if ok then RegisterStates (ss ++ rest) else ret false) sm).
    unfold bind. rewrite RegisterState_accepted by done. by rewrite IH.
Qed.

(** X14. [RegisterStates] over pointers that are all acceptable registers
    every one of them, in turn, with its counter at 0; a later state
    replaces an earlier one of the same name. *)
Theorem RegisterStates_all_accepted {Act Arg : Type}
    (sm : StateMachine Act Arg) (ss : list (option (State Act Arg))) :
  Forall acceptable ss →
  RegisterStates ss sm
  = Ok (true, with_states (λ σ, registered_into σ ss) sm).
Proof.
  intros Hok. rewrite <- (app_nil_r ss) at 1.
  by rewrite RegisterStates_prefix.
Qed.

Lemma RegisterStates_all_accepted_witness :
  RegisterStates [Some machine_scenario.A; Some machine_scenario.B]
    (NewStateMachine "demo" 100)
  = Ok (true,
        with_states
          (λ σ, registered_into σ
                  [Some machine_scenario.A; Some machine_scenario.B])
          (NewStateMachine "demo" 100)).
Proof.
  apply (RegisterStates_all_accepted (NewStateMachine "demo" 100)
           [Some machine_scenario.A; Some machine_scenario.B]).
  repeat constructor; eexists; (split; [reflexivity|discriminate]).
Defined.

(** X15. [RegisterStates] stops at the first nil or unnamed state and answers
    false: the states before it stay registered, those after it are not
    looked at. *)
Theorem RegisterStates_stops_at_first_refused {Act Arg : Type}
    (sm : StateMachine Act Arg) (ss rest : list (option (State Act Arg)))
    (bad : option (State Act Arg)) :
  Forall acceptable ss →
  ¬ acceptable bad →
  RegisterStates (ss ++ bad :: rest) sm
  = Ok (false, with_states (λ σ, registered_into σ ss) sm).
Proof.
  intros Hok Hbad. rewrite RegisterStates_prefix by done.
  change (RegisterStates (bad :: rest))
    with (let* ok := RegisterState bad in
          if ok then RegisterStates rest else ret false).
  unfold bind. by rewrite RegisterState_refused.
Qed.

Lemma RegisterStates_stops_at_first_refused_witness :
  RegisterStates ([Some machine_scenario.A] ++ None :: [Some machine_scenario.B])
    (NewStateMachine "demo" 100)
  = Ok (false,
        with_states (λ σ, registered_into σ [Some machine_scenario.A])
          (NewStateMachine "demo" 100)).
Proof.
  apply (RegisterStates_stops_at_first_refused (NewStateMachine "demo" 100)
           [Some machine_scenario.A] [Some machine_scenario.B] None).
  - repeat constructor; eexists; (split; [reflexivity|discriminate]).
  - intros (st & Hst & _). discriminate.
Defined.

(** *** The current state stays registered *)

Lemma State_trigger_frame {Act Arg : Type} (sm sm' : StateMachine Act Arg)
    (key : string) (s : State Act Arg) (u : unit) :
  State_trigger key s sm = Ok (u, sm') →
  states sm' = alter (with_tickCnt (u64_succ (tickCnt s))) key (states sm) ∧
  current sm' = current sm.
Proof.
  unfold State_trigger, call, get, close_stopped, ret, bind.
  intros Heq. repeat case_match; simplify_eq; done.
Qed.

Lemma State_trigger_panics_on_close {Act Arg : Type}
    (sm : StateMachine Act Arg) (key : string) (s : State Act Arg)
    (why : panic) :
  State_trigger key s sm = Panic why → why = CloseOfClosedChannel.
Proof.
  unfold State_trigger, call, get, close_stopped, ret, bind.
  intros Heq. repeat case_match; simplify_eq; done.
Qed.

Lemma MoveToState_frame {Act Arg : Type} (sm sm' : StateMachine Act Arg)
    (s : string) (b : bool) :
  MoveToState s sm = Ok (b, sm') →
  states sm' = states sm ∧
  (current sm' = current sm ∨
   current sm' = Some s ∧ is_Some (states sm !! s)).
Proof.
  unfold MoveToState, GetState, get, put, ret, bind.
  intros Heq. repeat case_match; simplify_eq; simpl; eauto.
Qed.

Lemma MoveToState_panics_on_nil {Act Arg : Type} (sm : StateMachine Act Arg)
    (s : string) (why : panic) :
  MoveToState s sm = Panic why → why = NilInterfaceConversion.
Proof.
  unfold MoveToState, GetState, get, put, ret, bind.
  intros Heq. repeat case_match; simplify_eq; done.
Qed.

Lemma invoke_frame {Act Arg : Type} (sm sm' : StateMachine Act Arg)
    (c : invocation) (u : unit) :
  invoke c sm = Ok (u, sm') →
  (∀ k, is_Some (states sm !! k) → is_Some (states sm' !! k)) ∧
  (current sm' = current sm ∨
   ∃ s, current sm' = Some s ∧ is_Some (states sm' !! s)).
Proof.
  destruct c as [s|state|state|on| |s| | |]; simpl.
  - unfold RegisterState, get, put, ret, bind.
    intros Heq. repeat case_match; simplify_eq; simpl; try by eauto.
    split; [|by left]. intros k Hk. apply lookup_insert_is_Some'.
    by right.
  - unfold SetStartingState, get, put, ret, bind.
    intros Heq. repeat case_match; simplify_eq; simpl; by eauto.
  - unfold SetStoppingState, get, put, ret, bind.
    intros Heq. repeat case_match; simplify_eq; simpl; by eauto.
  - unfold EnableStateTrace, get, put, bind.
    intros Heq. simplify_eq. simpl. by eauto.
  - unfold bind at 1. destruct (Startup sm) as [[b sm1]|why] eqn:HS; [|done].
    intros [= <-]. revert HS. unfold Startup, GetState, get, ret, bind.
    intros Heq. repeat case_match; simplify_eq; simpl; try by eauto.
    match goal with
    | Hm : MoveToState _ _ = Ok _ |- _ =>
        apply MoveToState_frame in Hm as [Hst [Hc|[Hc Hr]]]
    end.
    + rewrite Hst. split; [done|]. left. congruence.
    + rewrite Hst. split; [done|]. right. eauto.
  - unfold bind at 1. destruct (MoveToState s sm) as [[b sm1]|why] eqn:HM;
      [|done].
    unfold ret. intros ?. simplify_eq. apply MoveToState_frame in HM as [Hst [Hc|[Hc Hr]]].
    + rewrite Hst. split; [done|]. left. congruence.
    + rewrite Hst. split; [done|]. right. eauto.
  - unfold SaveState, GetState, get, put, bind.
    intros Heq. repeat case_match; simplify_eq; simpl; by eauto.
  - unfold RestoreState, bind at 1, get.
    unfold bind at 1.
    destruct (MoveToState (saved sm) sm) as [[b sm1]|why] eqn:HM; [|done].
    unfold ret. intros ?. simplify_eq. apply MoveToState_frame in HM as [Hst [Hc|[Hc Hr]]].
    + rewrite Hst. split; [done|]. left. congruence.
    + rewrite Hst. split; [done|]. right. eauto.
  - unfold StateMachine_trigger, GetState, get, raise, bind.
    intros Heq. repeat case_match; simplify_eq.
    match goal with
    | Ht : State_trigger _ _ _ = Ok _ |- _ =>
        apply State_trigger_frame in Ht as [Hst Hc]
    end.
    rewrite Hst. split; [|left; congruence].
    intros k Hk. by apply lookup_alter_is_Some.
Qed.

Lemma invoke_current_registered {Act Arg : Type}
    (sm sm' : StateMachine Act Arg) (c : invocation) (u : unit) :
  current_registered sm →
  invoke c sm = Ok (u, sm') →
  current_registered sm'.
Proof.
  intros Hinv Heq. apply invoke_frame in Heq as [Hgrow [Hc|(s & Hc & Hs)]].
  - intros cur Hcur. rewrite Hc in Hcur. by apply Hgrow, Hinv.
  - intros cur Hcur. rewrite Hc in Hcur. by simplify_eq.
Qed.

Lemma invoke_no_nil_state {Act Arg : Type} (sm : StateMachine Act Arg)
    (c : invocation) :
  current_registered sm →
  invoke c sm ≠ Panic NilPointerDereference.
Proof.
  intros Hinv. destruct c as [s|state|state|on| |s| | |]; simpl.
  - unfold RegisterState, get, put, ret, bind.
    repeat case_match; simplify_eq; done.
  - unfold SetStartingState, get, put, ret, bind.
    repeat case_match; simplify_eq; done.
  - unfold SetStoppingState, get, put, ret, bind.
    repeat case_match; simplify_eq; done.
  - done.
  - unfold bind at 1. destruct (Startup sm) as [[b sm1]|why] eqn:HS; [done|].
    intros [= ->]. revert HS. unfold Startup, GetState, get, ret, bind.
    intros Heq. repeat case_match; simplify_eq.
    match goal with
    | Hm : MoveToState _ _ = Panic _ |- _ =>
        apply MoveToState_panics_on_nil in Hm
    end. done.
  - unfold bind at 1. destruct (MoveToState s sm) as [[b sm1]|why] eqn:HM;
      [done|].
    intros [= ->]. by apply MoveToState_panics_on_nil in HM.
  - unfold SaveState, GetState, get, put, bind.
    repeat case_match; simplify_eq; done.
  - unfold RestoreState, bind at 1, get. unfold bind at 1.
    destruct (MoveToState (saved sm) sm) as [[b sm1]|why] eqn:HM; [done|].
    intros [= ->]. by apply MoveToState_panics_on_nil in HM.
  - unfold StateMachine_trigger, GetState, get, raise, bind.
    destruct (current sm) as [cur|] eqn:Hcur; [|done].
    destruct (Hinv cur Hcur) as [st Hst]. rewrite Hst.
    intros Heq. by apply State_trigger_panics_on_close in Heq.
Qed.

(** X16. On a machine whose current state, if stored, is registered, however
    the calls and ticks follow one another the current state stays
    registered and no tick finds a nil state behind the current name. *)
Theorem invoke_all_never_nil_state {Act Arg : Type}
    (sm : StateMachine Act Arg) (cs : list invocation) :
  current_registered sm →
  invoke_all cs sm ≠ Panic NilPointerDereference ∧
  ∀ sm', invoke_all cs sm = Ok (tt, sm') → current_registered sm'.
Proof.
  revert sm. induction cs as [|c cs IH]; intros sm Hinv.
  - split; [done|]. by intros sm' [= <-].
  - change (invoke_all (c :: cs) sm)
      with ((invoke c >> invoke_all cs) sm).
    unfold bind. destruct (invoke c sm) as [[u sm1]|why] eqn:Hc.
    + apply IH. by apply (invoke_current_registered sm sm1 c u).
    + split; [|done]. intros [= ->]. by apply (invoke_no_nil_state sm c).
Qed.

Lemma invoke_all_never_nil_state_witness :
  (∃ sm', invoke_all
            [Tick; CallSaveState; CallMoveToState "C"; Tick;
             CallRegisterState (Some machine_scenario.idle);
             CallMoveToState "I"; Tick; CallRestoreState; Tick]
            (with_current (Some "A") machine_scenario.polling)
          = Ok (tt, sm') ∧ current sm' = Some "A") ∧
  invoke_all
    [Tick; CallSaveState; CallMoveToState "C"; Tick;
     CallRegisterState (Some machine_scenario.idle);
     CallMoveToState "I"; Tick; CallRestoreState; Tick]
    (with_current (Some "A") machine_scenario.polling)
    ≠ Panic NilPointerDereference ∧
  ∀ sm', invoke_all
           [Tick; CallSaveState; CallMoveToState "C"; Tick;
            CallRegisterState (Some machine_scenario.idle);
            CallMoveToState "I"; Tick; CallRestoreState; Tick]
           (with_current (Some "A") machine_scenario.polling)
         = Ok (tt, sm') →
         current_registered sm'.
Proof.
  split.
  - eexists. split; [vm_compute; reflexivity|reflexivity].
  - apply (invoke_all_never_nil_state
             (with_current (Some "A") machine_scenario.polling)
             [Tick; CallSaveState; CallMoveToState "C"; Tick;
              CallRegisterState (Some machine_scenario.idle);
              CallMoveToState "I"; Tick; CallRestoreState; Tick]).
    intros cur [= <-]. vm_compute. eauto.
Defined.

(** *** How often an action is called *)

Lemma trigger_of_plain_state {Act Arg : Type} (sm : StateMachine Act Arg)
    (cur : string) (s : State Act Arg) (a : Act) :
  current sm = Some cur →
  states sm !! cur = Some s →
  Action s = Some a →
  ¬ designated_stopping sm s →
  StateMachine_trigger sm
  = Ok (tt,
        let ticked :=
          with_states (alter (with_tickCnt (u64_succ (tickCnt s))) cur) sm in
        if bool_decide (0 = Ticks s)
           || bool_decide (u64_succ (tickCnt s) mod Ticks s = 0)
        then with_invoked (invoked sm ++ [(a, Args s)]) ticked
        else ticked).
Proof.
  intros Hcur Hs Ha Hplain.
  unfold StateMachine_trigger, GetState, get, bind. rewrite Hcur, Hs.
  unfold State_trigger, call, get, close_stopped, ret, bind, u64_rem.
  rewrite Ha.
  destruct (bool_decide (0 = Ticks s)
            || bool_decide (u64_succ (tickCnt s) mod Ticks s = 0)); [|done].
  cbn [stopping with_invoked with_states].
  destruct (bool_decide (stopping sm ≠ "")
            && bool_decide (Name s = stopping sm)) eqn:Hlast; [|done].
  exfalso. apply Hplain. apply andb_true_iff in Hlast as [H1 H2].
  apply bool_decide_eq_true in H1, H2. done.
Qed.

Lemma div_succ (n c : Z) :
  0 < n → 0 ≤ c →
  (c + 1) / n - c / n = if decide ((c + 1) mod n = 0) then 1 else 0.
Proof.
  intros Hn Hc. destruct (decide ((c + 1) mod n = 0)) as [Hz|Hz];
    Z.div_mod_to_equations; nia.
Qed.

Lemma calls_between_nonneg (n c k : Z) :
  0 ≤ n → 0 ≤ k → 0 ≤ calls_between n c k.
Proof.
  intros Hn Hk. unfold calls_between. destruct (decide (n = 0)); [done|].
  assert (c / n ≤ (c + k) / n) by (apply Z.div_le_mono; lia). lia.
Qed.

Lemma calls_between_succ (n c k : Z) :
  0 ≤ n → 0 ≤ c → 0 ≤ k →
  calls_between n c (k + 1)
  = (if bool_decide (0 = n) || bool_decide ((c + 1) mod n = 0)
     then 1 else 0)
    + calls_between n (c + 1) k.
Proof.
  intros Hn Hc Hk. unfold calls_between. destruct (decide (n = 0)) as [->|Hn0].
  - rewrite bool_decide_eq_true_2 by done. simpl. lia.
  - rewrite (bool_decide_eq_false_2 (0 = n)) by lia. simpl.
    pose proof (div_succ n c) as Hd.
    destruct (decide ((c + 1) mod n = 0)) as [Hz|Hz].
    + rewrite bool_decide_eq_true_2 by done.
      replace (c + (k + 1)) with (c + 1 + k) by lia. lia.
    + rewrite bool_decide_eq_false_2 by done.
      replace (c + (k + 1)) with (c + 1 + k) by lia. lia.
Qed.

(** X17. Over [n] ticks in a state that is not the stopping state, the counter
    not wrapping, the counter goes up by [n] and the action is called on
    every tick where the tick-threshold is 0, and otherwise once for every
    multiple of the threshold the counter passes: [(c + n) / t - c / t]
    times from the counter [c]. *)
Theorem ticks_call_count {Act Arg : Type} (n : nat)
    (sm : StateMachine Act Arg) (cur : string) (s : State Act Arg) (a : Act) :
  current sm = Some cur →
  states sm !! cur = Some s →
  Action s = Some a →
  ¬ designated_stopping sm s →
  0 ≤ Ticks s →
  0 ≤ tickCnt s →
  tickCnt s + Z.of_nat n < u64_modulus →
  ∃ sm',
    ticks n sm = Ok (tt, sm') ∧
    states sm' !! cur = Some (with_tickCnt (tickCnt s + Z.of_nat n) s) ∧
    invoked sm'
    = invoked sm
      ++ replicate
           (Z.to_nat (calls_between (Ticks s) (tickCnt s) (Z.of_nat n)))
           (a, Args s).
Proof.
  revert sm s. induction n as [|n IH];
    intros sm s Hcur Hs Ha Hplain Ht Hc Hfit.
  - exists sm. split; [done|]. split.
    + rewrite Hs. f_equal. destruct s. unfold with_tickCnt. simpl.
      f_equal. lia.
    + unfold calls_between. destruct (decide (Ticks s = 0)).
      * simpl. by rewrite app_nil_r.
      * rewrite Z.add_0_r, Z.sub_diag. simpl. by rewrite app_nil_r.
  - change (ticks (S n) sm) with ((StateMachine_trigger >> ticks n) sm).
    unfold bind. rewrite (trigger_of_plain_state sm cur s a) by done.
    assert (Hsucc : u64_succ (tickCnt s) = tickCnt s + 1).
    { unfold u64_succ. apply service_facts.u64_small. lia. }
    rewrite Hsucc.
    set (s1 := with_tickCnt (tickCnt s + 1) s).
    set (b := bool_decide (0 = Ticks s)
              || bool_decide ((tickCnt s + 1) mod Ticks s = 0)).
    set (ticked := with_states (alter (with_tickCnt (tickCnt s + 1)) cur) sm).
    set (sm1 := if b then with_invoked (invoked sm ++ [(a, Args s)]) ticked
                else ticked).
    cbv zeta. fold ticked. fold sm1.
    assert (Hcur1 : current sm1 = Some cur) by (unfold sm1; by destruct b).
    assert (Hs1 : states sm1 !! cur = Some s1).
    { unfold sm1, ticked. destruct b; simpl; by rewrite lookup_alter_eq, Hs. }
    assert (Hplain1 : ¬ designated_stopping sm1 s1).
    { unfold designated_stopping, sm1, ticked. by destruct b. }
    destruct (IH sm1 s1 Hcur1 Hs1 Ha Hplain1 Ht) as (sm' & Hrun & Hst & Hinv).
    { simpl. lia. }
    { simpl. lia. }
    exists sm'. split; [done|]. split.
    + rewrite Hst. f_equal. unfold with_tickCnt. simpl. f_equal. lia.
    + rewrite Hinv. simpl tickCnt. simpl Ticks. simpl Args.
      replace (Z.of_nat (S n)) with (Z.of_nat n + 1) by lia.
      rewrite (calls_between_succ (Ticks s) (tickCnt s)) by lia.
      fold b.
      pose proof (calls_between_nonneg (Ticks s) (tickCnt s + 1) (Z.of_nat n)
                    Ht ltac:(lia)) as Hnn.
      unfold sm1, ticked. destruct b.
      * rewrite Z2Nat.inj_add by lia. simpl. by rewrite <- app_assoc.
      * by rewrite Z.add_0_l.
Qed.

Lemma ticks_call_count_witness :
  ∃ sm',
    ticks 7 machine_scenario.polling = Ok (tt, sm') ∧
    states sm' !! "C"
    = Some (with_tickCnt (2 + Z.of_nat 7) machine_scenario.every_third) ∧
    invoked sm'
    = invoked machine_scenario.polling
      ++ replicate (Z.to_nat (calls_between 3 2 (Z.of_nat 7))) ("poll", tt).
Proof.
  apply (ticks_call_count 7 machine_scenario.polling "C"
           machine_scenario.every_third "poll").
  - reflexivity.
  - vm_compute. reflexivity.
  - reflexivity.
  - intros [_ Hname]. vm_compute in Hname. discriminate.
  - vm_compute. discriminate.
  - vm_compute. discriminate.
  - vm_compute. reflexivity.
Defined.

(** *** Startup *)

Lemma invoke_frame_starting {Act Arg : Type} (sm sm' : StateMachine Act Arg)
    (c : invocation) (u : unit) :
  invoke c sm = Ok (u, sm') →
  starting sm' = starting sm ∨ is_Some (states sm' !! starting sm').
Proof.
  destruct c as [s|state|state|on| |s| | |]; simpl;
    unfold RegisterState, SetStartingState, SetStoppingState,
      EnableStateTrace, Startup, RestoreState, SaveState, MoveToState,
      StateMachine_trigger, State_trigger, GetState, call, close_stopped,
      get, put, ret, raise, bind;
    intros Heq; repeat case_match; simplify_eq; simpl; eauto.
Qed.

(** The starting state of a machine is registered, whatever calls and
    ticks the machine has gone through: [SetStartingState] takes
    registered names only and no call takes a state out of the map. *)
Lemma invoke_all_starting_registered {Act Arg : Type}
    (cs : list invocation) (sm sm' : StateMachine Act Arg) :
  starting_registered sm →
  invoke_all cs sm = Ok (tt, sm') →
  starting_registered sm'.
Proof.
  revert sm. induction cs as [|c cs IH]; intros sm Hinv.
  - by intros [= <-].
  - change (invoke_all (c :: cs) sm)
      with ((invoke c >> invoke_all cs) sm).
    unfold bind. destruct (invoke c sm) as [[u sm1]|why] eqn:Hc; [|done].
    apply IH. intros Hset.
    destruct (invoke_frame_starting sm sm1 c u Hc) as [Hsame|Hreg]; [|done].
    apply (invoke_frame sm sm1 c u Hc). rewrite Hsame. apply Hinv.
    by rewrite <- Hsame.
Qed.

(** X18. [Startup] answers false, and changes nothing, while no state is
    registered or no starting state is set.  Otherwise: on a machine in a
    named state it answers true and changes nothing; with the empty name
    stored as the current state it answers true and has moved to the
    starting state where that state is registered (as it is on every
    machine set up through [SetStartingState]), and has left the machine
    as it was where it is not; and with nothing stored yet it panics on
    the nil value of the current slot. *)
Theorem Startup_outcome {Act Arg : Type} (sm : StateMachine Act Arg) :
  (size (states sm) = 0%nat ∨ starting sm = "" → Startup sm = Ok (false, sm)) ∧
  (size (states sm) ≠ 0%nat → starting sm ≠ "" →
   (∀ cur, current sm = Some cur → cur ≠ "" → Startup sm = Ok (true, sm)) ∧
   (current sm = Some "" → is_Some (states sm !! starting sm) →
    Startup sm = Ok (true, with_current (Some (starting sm)) sm)) ∧
   (current sm = Some "" → states sm !! starting sm = None →
    Startup sm = Ok (true, sm)) ∧
   (current sm = None → Startup sm = Panic NilInterfaceConversion)).
Proof.
  split.
  - intros Hpre. unfold Startup, get, ret, bind.
    destruct (decide (size (states sm) = 0%nat)) as [Hz|Hnz].
    + by rewrite bool_decide_eq_true_2.
    + rewrite bool_decide_eq_false_2 by done.
      destruct Hpre as [?|Hst]; [done|]. by rewrite bool_decide_eq_true_2.
  - intros Hsize Hstart.
    unfold Startup, get, ret, bind.
    rewrite !bool_decide_eq_false_2 by done.
    split; [|split; [|split]].
    + intros cur Hcur Hne. unfold GetState. rewrite Hcur.
      by rewrite bool_decide_eq_false_2.
    + intros Hcur Hreg. unfold GetState. rewrite Hcur.
      rewrite bool_decide_eq_true_2 by done.
      by rewrite (MoveToState_registered sm "" (starting sm)).
    + intros Hcur Hreg. unfold GetState. rewrite Hcur.
      rewrite bool_decide_eq_true_2 by done.
      by rewrite (MoveToState_unknown sm "" (starting sm)).
    + intros Hcur. unfold GetState. by rewrite Hcur.
Qed.

Lemma Startup_outcome_witness :
  starting_registered (with_current (Some "") machine_scenario.configured) ∧
  Startup (with_current (Some "") machine_scenario.configured)
  = Ok (true, with_current (Some "A")
                (with_current (Some "") machine_scenario.configured)).
Proof.
  split; [intros _; vm_compute; eauto|].
  apply (Startup_outcome
           (with_current (Some "") machine_scenario.configured)).
  - vm_compute. discriminate.
  - discriminate.
  - reflexivity.
  - vm_compute. eauto.
Defined.

End machine_facts.

(** ** Properties of the spin lock *)

Module concurrent_facts.
Import concurrent.

(** X19. With nobody else at the word, [Lock] on a free locker returns at its
    first swap with the word at 1, and [Lock] on a taken locker never
    returns, however many turns it is given: the lock is not reentrant.
    After [Unlock] the locker is free again. *)
Theorem Lock_alone (l : Locker) :
  (lock l = 0 → ∀ fuel, Lock (S fuel) l = Some {| lock := 1 |}) ∧
  (lock l ≠ 0 → ∀ fuel, Lock fuel l = None) ∧
  (∀ fuel, Lock (S fuel) (Unlock l) = Some {| lock := 1 |}).
Proof.
  split; [|split].
  - intros Hfree fuel. simpl. unfold CompareAndSwapUintptr.
    by destruct (decide (lock l = 0)).
  - intros Htaken fuel. induction fuel as [|fuel IH]; [done|].
    simpl. unfold CompareAndSwapUintptr.
    by destruct (decide (lock l = 0)).
  - intros fuel. reflexivity.
Qed.

Lemma Lock_alone_witness :
  Lock 1000 {| lock := 1 |} = None.
Proof.
  apply (proj1 (proj2 (Lock_alone {| lock := 1 |}))). discriminate.
Defined.

Lemma start_outside (n i : nat) (p : place) :
  goroutines (start n) !! i = Some p → p = Outside.
Proof.
  unfold start. simpl. intros Hi. apply elem_of_list_to_map_2 in Hi.
  apply list_elem_of_fmap in Hi as (j & [= -> ->] & _). done.
Qed.

Lemma truthful_start (n : nat) : truthful (start n).
Proof.
  left. split; [done|]. intros i Hi. by apply start_outside in Hi.
Qed.

Lemma truthful_step (i : nat) (st : system) :
  truthful st → truthful (step i st).
Proof.
  intros Hst. unfold step.
  destruct (goroutines st !! i) as [[| |]|] eqn:Hi; [| | |done].
  - destruct Hst as [[H0 Hno]|(H1 & h & Hh & Huniq)]; [left|right]; simpl.
    + split; [done|]. intros j. rewrite lookup_insert.
      destruct (decide (i = j)); [done|apply Hno].
    + split; [done|]. exists h. split.
      * rewrite lookup_insert_ne; [done|]. intros ->. congruence.
      * intros j. rewrite lookup_insert.
        destruct (decide (i = j)); [done|apply Huniq].
  - unfold CompareAndSwapUintptr.
    destruct (decide (lock (locker st) = 0)) as [Hfree|Htaken]; simpl.
    + destruct Hst as [[H0 Hno]|(H1 & _)]; [|congruence].
      right. simpl. split; [done|]. exists i. split.
      * apply lookup_insert_eq.
      * intros j. rewrite lookup_insert.
        destruct (decide (i = j)); [done|]. intros Hj. by apply Hno in Hj.
    + done.
  - destruct Hst as [[H0 Hno]|(H1 & h & Hh & Huniq)].
    + by apply Hno in Hi.
    + left. simpl. split; [done|]. intros j. rewrite lookup_insert.
      destruct (decide (i = j)); [done|]. intros Hj.
      apply Huniq in Hj. apply Huniq in Hi. congruence.
Qed.

(** X20. Mutual exclusion: however the scheduler interleaves the goroutines,
    each going through [Lock], its critical section and [Unlock], no two
    of them are between [Lock] and [Unlock] at once, and the word is 1
    exactly while one of them is. *)
Theorem Locker_mutual_exclusion (schedule : list nat) (n : nat) :
  (∀ i j,
     goroutines (interleave schedule (start n)) !! i = Some Holding →
     goroutines (interleave schedule (start n)) !! j = Some Holding →
     i = j) ∧
  (lock (locker (interleave schedule (start n))) = 1 ↔
   ∃ i, goroutines (interleave schedule (start n)) !! i = Some Holding) ∧
  (lock (locker (interleave schedule (start n))) = 0 ∨
   lock (locker (interleave schedule (start n))) = 1).
Proof.
  assert (Hinv : truthful (interleave schedule (start n))).
  { unfold interleave. generalize (truthful_start n).
    generalize (start n). induction schedule as [|i schedule IH];
      intros st Hst; [done|].
    simpl. apply IH. by apply truthful_step. }
  destruct Hinv as [[H0 Hno]|(H1 & h & Hh & Huniq)].
  - split; [|split].
    + intros i j Hi. by apply Hno in Hi.
    + split; [lia|]. intros [i Hi]. by apply Hno in Hi.
    + by left.
  - split; [|split].
    + intros i j Hi Hj. apply Huniq in Hi, Hj. congruence.
    + split; [eauto|done].
    + by right.
Qed.

End concurrent_facts.
